(** * Read-chapter agent: prompt template and response parser

    A shallow embedding of [novelinsights/wikigen_fiction/agents/read_chapter_agent.py]:
    the prompt builder ([task], [instructions], [general_reminders], [template])
    and the reply parser ([ReadChapterResponse.parse_response]), together with
    the fragment of Python's [str] and [list] semantics the parser relies on
    ([in], [find], [split], [strip], indexing with [IndexError]). *)

From Stdlib Require Import Ascii String List NArith Bool Arith Lia.
Import ListNotations.

(** ** Python values *)

(** A Python [str] is a sequence of Unicode code points. *)
Definition char := N.
Definition str := list char.

(** A source literal (all literals of the module are ASCII). *)
Definition lit (s : string) : str := map N_of_ascii (list_ascii_of_string s).

(** The double-quote character, U+0022. *)
Definition dq : str := [34%N].

(** Exceptions the parser can let escape, and results of fallible code. *)
Inductive exn : Type := IndexError.

Inductive result (A : Type) : Type :=
| Ok (a : A)
| Raise (e : exn).
Arguments Ok {A} a.
Arguments Raise {A} e.

Definition bind {A B : Type} (m : result A) (k : A -> result B) : result B :=
  match m with
  | Ok a => k a
  | Raise e => Raise e
  end.

Declare Scope py_scope.
Delimit Scope py_scope with py.
Notation "x <- m ;; k" := (bind m (fun x => k))
  (at level 61, m at next level, right associativity) : py_scope.
Open Scope py_scope.

(** [l[i]] for a non-negative index: [IndexError] when out of range. *)
Definition getitem {A : Type} (l : list A) (i : nat) : result A :=
  match nth_error l i with
  | Some x => Ok x
  | None => Raise IndexError
  end.

(** ** Python [str] operations *)

(** [s.startswith(prefix)] *)
Fixpoint startswith (s prefix : str) : bool :=
  match prefix, s with
  | [], _ => true
  | p :: prefix', c :: s' => N.eqb c p && startswith s' prefix'
  | _ :: _, [] => false
  end.

(** [s.find(sub)]: the lowest index at which [sub] occurs, [None] for -1. *)
Fixpoint find (s sub : str) : option nat :=
  if startswith s sub then Some 0
  else match s with
       | [] => None
       | _ :: s' => option_map S (find s' sub)
       end.

(** [sub in s] *)
Definition str_in (sub s : str) : bool :=
  match find s sub with
  | Some _ => true
  | None => false
  end.

(** [s.split(sep)] for a non-empty [sep] (every call site passes a non-empty
    literal): cut at the first occurrence, continue after the separator.
    Each cut consumes at least one character, so [length s] rounds suffice. *)
Fixpoint split_loop (fuel : nat) (s sep : str) : list str :=
  match fuel with
  | O => [s]
  | S fuel' =>
      match find s sep with
      | None => [s]
      | Some j => firstn j s :: split_loop fuel' (skipn (j + length sep) s) sep
      end
  end.

Definition split (s sep : str) : list str := split_loop (length s) s sep.

(** [c.isspace()] for one code point: the whitespace table of CPython. *)
Definition isspace (c : char) : bool :=
  (((0x09 <=? c) && (c <=? 0x0D)) || ((0x1C <=? c) && (c <=? 0x20))
   || (c =? 0x85) || (c =? 0xA0) || (c =? 0x1680)
   || ((0x2000 <=? c) && (c <=? 0x200A))
   || (c =? 0x2028) || (c =? 0x2029) || (c =? 0x202F) || (c =? 0x205F)
   || (c =? 0x3000))%N.

(** [s.lstrip()], [s.rstrip()], [s.strip()] *)
Fixpoint lstrip (s : str) : str :=
  match s with
  | [] => []
  | c :: s' => if isspace c then lstrip s' else s
  end.

Definition rstrip (s : str) : str := rev (lstrip (rev s)).

Definition strip (s : str) : str := rstrip (lstrip s).

(** ** The prompt builder *)

Definition task : str :=
  lit "Your task is to produce a comprehensive and detailed summary of the current chapter, as well as extract and organize all significant information into predefined categories: Characters, Chronology, Locations, Organizations, Things, and Concepts. The output should be thorough and suitable for creating Wikipedia-style entries, ensuring that all essential details from the chapter are captured accurately.".

(** The instruction text before the optional continuity clause. *)
Definition instructions_text : str :=
  lit "## Non-Plot Content
- Identify if the chapter is for non-plot content (e.g., front matter, acknowledgments, table of contents, etc.)
- If the chapter is non-plot content, you make skip Information Extraction and replace the content with " ++ dq ++ lit "<SKIPPED-EXTRACTION>" ++ dq ++ lit "

## Information Extraction

For each category below, extract relevant details from the chapter. Present the information in a clear and organized manner, using bullet points or numbered lists where appropriate. If the chapter does not contain information for a specific category, you may omit it.

For all items in each category, make sure to explain why you chose them and how they contribute to the plot of the entire story. Rank the importance of each item as very high, high, medium, low, or very low.

### Entities
 - List all important characters introduced or featured in this chapter
 - Provide a detailed description of the character. Include (if available):
 - type of entity (character, monster, abstract force)
 - Name
 - Role in the plot/chapter
 - Personality
 - Relationships with other characters
 - Significance to the plot or characters
 - backstory, motivations, or any other relevant details
 - any other relevant details

### Chronology
 - Identify and list the events that occur or are described in the chapter
 - For each event, provide a detailed description. Include (if available):
 - Name or title of the event
 - Type or category of the event
 - Overarching Conflict name or title
 - Significance to the plot or characters
 - any chronology of the event
 - Background or context leading to the event
 - Characters involved and their roles
 - Locations where the event takes place
 - any other relevant details

### Locations
 - List and describe any important locations introduced or revisited
 - Provide a detailed description of each location. Include (if available):
 - Name of the location
 - significance to the plot or characters
 - physical description or notable features
 - cultural or historical significance
 - any history or background information
 - nearby locations or connections to other places 
 - any other relevant details

### Organizations
 - List any important organizations, groups, or factions mentioned or central to the chapter
 - Provide a detailed description of each organization. Include (if available):
 - Name of the organization
 - Purpose or goals
 - Key members or leaders
 - Relationships with other organizations
 - any significant actions or decisions made by the organization
 - any history or background information
 - any other relevant

### Things
 - List any important items introduced or referenced in the chapter
 - Provide a detailed description of each item. Include (if available):
 - Name of the item
 - Type or category
 - Physical description or notable features
 - Special properties or functions
 - Significance to the plot or characters
 - History or background information
 - Current status or location
 - any related entities or connections
 - any other relevant details

### Concepts
 - List any key concepts, ideas, or themes explored in the chapter
 - Provide a detailed description of each concept. Include (if available):
 - Name or title of the concept
 - Definition or explanation
 - Significance to the plot or characters
 - any examples or instances in the chapter
 - any connections to other concepts or themes
 - any other relevant details

### Story Arc
- Identify and describe the overarching conflict or main storyline based on this chapter and previous context
- Provide a detailed description of the conflict. Include (if available):
    - Proper name or title of the conflict
    - Description of the conflict
    - any history or background information
    - any other relevant details

## General Chapter Summary
- Write a detailed summary of the entire chapter (approximately 300-500 words).
- Focus on key plot developments, character actions and interactions, significant events, and any important revelations.
- Ensure the summary is coherent and logically flows from one point to the next.
- This should not be explicitly for " ++ dq ++ lit "this chapter" ++ dq ++ lit " but should be a general summary of the chapter's content.".

(** The clause appended when a previous-chapter context is given. *)
Definition continuity_clause : str :=
  lit "## 3. Previous Chapter(s) Summary:
- using the previous chapter context, write a summary of the previous chapter(s) to provide continuity and context for the current chapter.".

Definition instructions (prev_chap_context : option str) : str :=
  let instructions := instructions_text in
  match prev_chap_context with
  | Some _ => instructions ++ continuity_clause
  | None => instructions
  end.

Definition general_reminders : str :=
  lit "- Do not use external knowledge or information beyond what is provided in the chapter and previous context.
- Stick strictly to the information in the chapter context and prior story summaries.
- DO NOT explicitly mention " ++ dq ++ lit "chapter" ++ dq ++ lit " or " ++ dq ++ lit "book" ++ dq ++ lit " in the response. Instead, refer to the content as if it were a standalone piece of information.
- Make sure to follow the exact markdown format and structure provided in the instructions with ALL headings and subheadings including the number of hashes '#' (like ## Information Extraction).
".

(** [template(title, content, story_so_far, prev_chap_context)]; an omitted
    optional argument is [None]. *)
Definition template (title content : str)
    (story_so_far prev_chap_context : option str) : str :=
  let prompt := lit "# Task
" ++ task in
  let prompt :=
    match story_so_far with
    | Some story_so_far => prompt ++ lit "
# Story So Far:
" ++ story_so_far ++ lit "
"
    | None => prompt
    end in
  let prompt :=
    match prev_chap_context with
    | Some prev_chap_context => prompt ++ lit "
# Previous Chapter(s) Context:
" ++ prev_chap_context ++ lit "
"
    | None => prompt
    end in
  let prompt := prompt ++ lit "# Chapter Context:
## Chapter Title: " ++ title ++ lit "
## Chapter Content: 
---
" ++ content ++ lit "
---

# Instructions
---
" ++ instructions prev_chap_context ++ lit "
---
# General Reminders
" ++ general_reminders in
  prompt.

(** ** The response model and its parser *)

Record ReadChapterExtraction : Type := {
  characters : str;
  events : str;
  locations : str;
  organizations : str;
  things : str;
  concepts : str;
  main_arc : str
}.

Record ReadChapterResponse : Type := {
  full_response : str;
  skipped_info_extraction : bool;
  info_extraction : option ReadChapterExtraction;
  chapter_summary : str
}.

(** The literals the parser is keyed on. *)
Definition SKIPPED : str := lit "<SKIPPED-EXTRACTION>".
Definition SUMMARY_HEADING : str := lit "## General Chapter Summary".
Definition EXTRACTION_HEADING : str := lit "## Information Extraction".
Definition MARKER : str := lit "###".

(** The [else] branch of [parse_response]: lines 195 to 212. *)
Definition parse_extraction (split1 : list str) : result ReadChapterExtraction :=
  pre <- getitem split1 0 ;;
  let split2 := split pre EXTRACTION_HEADING in
  s1 <- getitem split2 1 ;;
  let text_extraction := strip s1 in
  let extract_split := split text_extraction MARKER in
  e1 <- getitem extract_split 1 ;;
  let characters := MARKER ++ e1 in
  e2 <- getitem extract_split 2 ;;
  let events := MARKER ++ e2 in
  e3 <- getitem extract_split 3 ;;
  let locations := MARKER ++ e3 in
  e4 <- getitem extract_split 4 ;;
  let organizations := MARKER ++ e4 in
  e5 <- getitem extract_split 5 ;;
  let things := MARKER ++ e5 in
  e6 <- getitem extract_split 6 ;;
  let concepts := MARKER ++ e6 in
  e7 <- getitem extract_split 7 ;;
  let main_arc := MARKER ++ e7 in
  Ok {| characters := characters; events := events; locations := locations;
        organizations := organizations; things := things;
        concepts := concepts; main_arc := main_arc |}.

(** [ReadChapterResponse.parse_response(response)] *)
Definition parse_response (response : str) : result ReadChapterResponse :=
  let full_response := response in
  let skipped_info_extraction := str_in SKIPPED response in
  let split1 := split response SUMMARY_HEADING in
  s1 <- getitem split1 1 ;;
  let chapter_summary := lit "## Chapter Summary" ++ s1 in
  info_extraction <-
    (if skipped_info_extraction then Ok None
     else e <- parse_extraction split1 ;; Ok (Some e)) ;;
  Ok {| full_response := full_response;
        skipped_info_extraction := skipped_info_extraction;
        info_extraction := info_extraction;
        chapter_summary := chapter_summary |}.

(** ** Vocabulary for the statements *)

(** [sep.join(l)] *)
Fixpoint join (sep : str) (l : list str) : str :=
  match l with
  | [] => []
  | x :: l' =>
      match l' with
      | [] => x
      | _ :: _ => x ++ sep ++ join sep l'
      end
  end.

(** The text of [s] before the first occurrence of [sep] (all of [s] when
    there is none), and the text after that occurrence. *)
Definition upto (s sep : str) : str :=
  match find s sep with
  | Some j => firstn j s
  | None => s
  end.

Definition after (s sep : str) : str :=
  match find s sep with
  | Some j => skipn (j + length sep) s
  | None => []
  end.

(** The block of a reply before the summary heading: [split1[0]]. *)
Definition pre_summary (response : str) : str := upto response SUMMARY_HEADING.

(** The text the parser cuts into categories, [text_extraction]: what follows
    the first extraction heading of the pre-summary block, up to the next
    such heading if there is one, stripped. *)
Definition extraction_region (response : str) : str :=
  strip (upto (after (pre_summary response) EXTRACTION_HEADING) EXTRACTION_HEADING).

(** The [###]-delimited segments of a text, [extract_split[1:]]: what
    follows each marker. *)
Definition segments (text : str) : list str := tl (split text MARKER).

(** The seven category fields cut from a list of segments. *)
Definition extraction_of (segs : list str) : ReadChapterExtraction :=
  {| characters := MARKER ++ nth 0 segs [];
     events := MARKER ++ nth 1 segs [];
     locations := MARKER ++ nth 2 segs [];
     organizations := MARKER ++ nth 3 segs [];
     things := MARKER ++ nth 4 segs [];
     concepts := MARKER ++ nth 5 segs [];
     main_arc := MARKER ++ nth 6 segs [] |}.

(** The summary text of a reply, [split1[1]]: what follows the first
    summary heading, up to the next one if there is one. *)
Definition summary_text (response : str) : str :=
  upto (after response SUMMARY_HEADING) SUMMARY_HEADING.

(** Some non-empty suffix of [x] is a prefix of [y]. *)
Definition overlap (x y : str) : bool :=
  existsb (fun k => startswith y (skipn (length x - k) x)) (seq 1 (length x)).

(** A previous-chapter context that is passed and is not the empty string. *)
Definition context_nonempty (prev_chap_context : option str) : bool :=
  match prev_chap_context with
  | Some (_ :: _) => true
  | Some [] | None => false
  end.

(** The headings every prompt has to carry. *)
Definition mandatory_headings : list str :=
  [ lit "# Task"; lit "# Chapter Context:"; lit "# Instructions";
    lit "## Information Extraction"; lit "### Entities"; lit "### Chronology";
    lit "### Locations"; lit "### Organizations"; lit "### Things";
    lit "### Concepts"; lit "### Story Arc"; lit "## General Chapter Summary";
    lit "# General Reminders" ].

(** The fixed blocks of a prompt, between the caller's texts. *)
Definition prompt_head : str := lit "# Task
" ++ task.

Definition story_open : str := lit "
# Story So Far:
".

Definition previous_open : str := lit "
# Previous Chapter(s) Context:
".

Definition newline : str := lit "
".

Definition context_open : str := lit "# Chapter Context:
## Chapter Title: ".

Definition content_open : str := lit "
## Chapter Content: 
---
".

Definition prompt_tail (prev_chap_context : option str) : str :=
  lit "
---

# Instructions
---
" ++ instructions prev_chap_context ++ lit "
---
# General Reminders
" ++ general_reminders.

(** ** Sample replies *)

(** A reply in the expected format. *)
Definition reply_full : str := lit "Notes first.
## Information Extraction

### Entities
 - Ann, a smith
### Chronology
 - The forge burns
### Locations
 - The village
### Organizations
 - The guild
### Things
 - A hammer
### Concepts
 - Duty
### Story Arc
- The feud

## General Chapter Summary
- Ann loses the forge.".

(** A reply for a chapter without plot content. *)
Definition reply_skipped : str := lit "<SKIPPED-EXTRACTION>

## General Chapter Summary
- A table of contents.".

(** A reply that stops after three categories. *)
Definition reply_short : str := lit "## Information Extraction

### Entities
 - Ann
### Chronology
 - The forge burns
### Locations
 - The village

## General Chapter Summary
- Ann loses the forge.".

(** A reply with an eighth section. *)
Definition reply_extra : str := lit "## Information Extraction

### Entities
 - Ann
### Chronology
 - The forge burns
### Locations
 - The village
### Organizations
 - The guild
### Things
 - A hammer
### Concepts
 - Duty
### Story Arc
- The feud
### Themes
- Loss

## General Chapter Summary
- Ann loses the forge.".

(** A reply that repeats the summary heading. *)
Definition reply_two_summaries : str := lit "## Information Extraction
<SKIPPED-EXTRACTION>
## General Chapter Summary
- First.
## General Chapter Summary
- Second.".

(** A complete reply whose summary quotes the sentinel. *)
Definition reply_sentinel_in_summary : str := lit "## Information Extraction

### Entities
 - Ann
### Chronology
 - The forge burns
### Locations
 - The village
### Organizations
 - The guild
### Things
 - A hammer
### Concepts
 - Duty
### Story Arc
- The feud

## General Chapter Summary
- The preface was marked <SKIPPED-EXTRACTION> earlier.".

(** A reply with neither the sentinel nor the extraction heading. *)
Definition reply_no_extraction_heading : str := lit "## Extraction

### Entities
 - Ann

## General Chapter Summary
- Ann loses the forge.".

(** A reply with the summary heading in lower case. *)
Definition reply_lowercase_heading : str := lit "## Information Extraction
<SKIPPED-EXTRACTION>

## general chapter summary
- A table of contents.".

(** ** The agent's prompt methods *)

(** [ReadChapterAgent.prompt] *)
Definition prompt (title content : str)
    (story_so_far prev_chap_context : option str) : str :=
  template title content story_so_far prev_chap_context.

(** [ReadChapterAgent.mock_template] *)
Definition mock_template : str :=
  template (lit "{{title}}") (lit "{{content}}")
    (Some (lit "<OPT>{{story_so_far}}</OPT>"))
    (Some (lit "<OPT>{{prev_chap_context}}</OPT>")).

(** ** More vocabulary *)

(** A text without the character [#]. *)
Definition hashfree (t : str) : bool := forallb (fun c => negb (c =? 0x23)%N) t.

(** The last character of a text is whitespace. *)
Definition ends_with_space (s : str) : bool :=
  match rev s with
  | c :: _ => isspace c
  | [] => false
  end.

(** The seven category fields of an extraction, in order. *)
Definition fields (e : ReadChapterExtraction) : list str :=
  [ characters e; events e; locations e; organizations e; things e;
    concepts e; main_arc e ].

(** The extraction part of a reply laid out as the instructions ask: an
    introduction, then seven marked sections. *)
Definition laid_out_body (intro s1 s2 s3 s4 s5 s6 s7 : str) : str :=
  intro ++ MARKER ++ s1 ++ MARKER ++ s2 ++ MARKER ++ s3 ++ MARKER ++ s4 ++
  MARKER ++ s5 ++ MARKER ++ s6 ++ MARKER ++ s7.

(** A whole reply in that layout. *)
Definition laid_out_reply (pre intro s1 s2 s3 s4 s5 s6 s7 summary : str) : str :=
  pre ++ EXTRACTION_HEADING ++ laid_out_body intro s1 s2 s3 s4 s5 s6 s7 ++
  SUMMARY_HEADING ++ summary.

(** Sample parts of such a reply. *)
Definition sample_pre : str := lit "Notes first.
".
Definition sample_intro : str := lit "

".
Definition sample_entities : str := lit " Entities
 - Ann, a smith
".
Definition sample_chronology : str := lit " Chronology
 - The forge burns
".
Definition sample_locations : str := lit " Locations
 - The village
".
Definition sample_organizations : str := lit " Organizations
 - The guild
".
Definition sample_things : str := lit " Things
 - A hammer
".
Definition sample_concepts : str := lit " Concepts
 - Duty
".
Definition sample_story_arc : str := lit " Story Arc
- The feud

".
Definition sample_summary : str := lit "
- Ann loses the forge.".

(** The headings of the two optional blocks of a prompt. *)
Definition STORY_HEADING : str := lit "# Story So Far:".
Definition PREVIOUS_HEADING : str := lit "# Previous Chapter(s) Context:".

(** The chapter context heading, and the same at the start of a line. *)
Definition CONTEXT_HEADING : str := lit "# Chapter Context:".
Definition CONTEXT_HEADING_LINE : str := lit "
# Chapter Context:".

(** * Properties of the string operations *)

Section StrFacts.

Lemma startswith_nil (s : str) : startswith s [] = true.
Proof. destruct s; reflexivity. Qed.

Lemma startswith_app (p t : str) : startswith (p ++ t) p = true.
Proof.
  induction p as [|c p IH]; simpl.
  - apply startswith_nil.
  - rewrite N.eqb_refl. exact IH.
Qed.

Lemma startswith_inv (s p : str) :
  startswith s p = true -> s = p ++ skipn (length p) s.
Proof.
  revert s. induction p as [|c p IH]; intros s H.
  - reflexivity.
  - destruct s as [|d s]; simpl in H; [discriminate|].
    apply andb_true_iff in H. destruct H as [Hc Hp].
    apply N.eqb_eq in Hc. subst d. simpl. f_equal. apply IH, Hp.
Qed.

Lemma startswith_iff (s p : str) :
  startswith s p = true <-> exists t, s = p ++ t.
Proof.
  split.
  - intros H. eexists. apply startswith_inv, H.
  - intros [t ->]. apply startswith_app.
Qed.

Lemma startswith_length (s p : str) :
  startswith s p = true -> length p <= length s.
Proof.
  intros H. apply startswith_inv in H. rewrite H, length_app. lia.
Qed.

Lemma find_nil_sep (sub : str) : sub <> [] -> find [] sub = None.
Proof. destruct sub; [congruence | reflexivity]. Qed.

Lemma find_nil (sub : str) :
  find [] sub = if startswith [] sub then Some 0 else None.
Proof. reflexivity. Qed.

Lemma find_cons (c : char) (s sub : str) :
  find (c :: s) sub =
  if startswith (c :: s) sub then Some 0 else option_map S (find s sub).
Proof. reflexivity. Qed.

(** [find] returns an occurrence, and the lowest one. *)
Lemma find_some_inv (s sub : str) (j : nat) :
  find s sub = Some j ->
  startswith (skipn j s) sub = true /\
  forall i, i < j -> startswith (skipn i s) sub = false.
Proof.
  revert j. induction s as [|c s IH]; intros j H.
  - rewrite find_nil in H. destruct (startswith [] sub) eqn:E; [|discriminate].
    injection H as <-. split; [exact E | intros i Hi; lia].
  - rewrite find_cons in H.
    destruct (startswith (c :: s) sub) eqn:E.
    + injection H as <-. split; [exact E | intros i Hi; lia].
    + destruct (find s sub) as [k|] eqn:F; [|discriminate].
      injection H as <-. destruct (IH k eq_refl) as [H1 H2].
      split; [exact H1|].
      intros [|i] Hi; [exact E|]. apply H2. lia.
Qed.

Lemma find_none_inv (s sub : str) :
  find s sub = None -> forall i, startswith (skipn i s) sub = false.
Proof.
  induction s as [|c s IH]; intros H i.
  - rewrite find_nil in H. rewrite skipn_nil.
    destruct (startswith [] sub); [discriminate | reflexivity].
  - rewrite find_cons in H.
    destruct (startswith (c :: s) sub) eqn:E; [discriminate|].
    destruct (find s sub) eqn:F; [discriminate|].
    destruct i as [|i]; [exact E | apply IH; reflexivity].
Qed.

(** Conversely, an occurrence with none before it is what [find] returns. *)
Lemma find_some_intro (s sub : str) (j : nat) :
  startswith (skipn j s) sub = true ->
  (forall i, i < j -> startswith (skipn i s) sub = false) ->
  find s sub = Some j.
Proof.
  intros H1 H2. destruct (find s sub) as [k|] eqn:F.
  - destruct (find_some_inv _ _ _ F) as [K1 K2].
    destruct (Nat.lt_trichotomy j k) as [L|[->|L]]; [|reflexivity|].
    + rewrite (K2 j L) in H1. discriminate.
    + rewrite (H2 k L) in K1. discriminate.
  - rewrite (find_none_inv _ _ F j) in H1. discriminate.
Qed.

Lemma find_bound (s sub : str) (j : nat) :
  find s sub = Some j -> j + length sub <= length s.
Proof.
  revert j. induction s as [|c s IH]; intros j H.
  - rewrite find_nil in H. destruct (startswith [] sub) eqn:E; [|discriminate].
    injection H as <-. apply startswith_length in E. simpl in *. lia.
  - rewrite find_cons in H.
    destruct (startswith (c :: s) sub) eqn:E.
    + injection H as <-. apply startswith_length in E. simpl in *. lia.
    + destruct (find s sub) as [k|] eqn:F; [|discriminate].
      injection H as <-. specialize (IH k eq_refl). simpl. lia.
Qed.

(** A string found at [j] splits the text in three. *)
Lemma find_decomp (s sub : str) (j : nat) :
  find s sub = Some j ->
  s = firstn j s ++ sub ++ skipn (j + length sub) s.
Proof.
  intros H. apply find_some_inv in H. destruct H as [H _].
  apply startswith_inv in H. rewrite skipn_skipn in H.
  rewrite (Nat.add_comm j), <- H. symmetry. apply firstn_skipn.
Qed.

Lemma skipn_length_app (a b : str) : skipn (length a) (a ++ b) = b.
Proof. rewrite skipn_app, skipn_all, Nat.sub_diag. reflexivity. Qed.

Lemma firstn_length_app (a b : str) : firstn (length a) (a ++ b) = a.
Proof. rewrite firstn_app, firstn_all, Nat.sub_diag, app_nil_r. reflexivity. Qed.

(** [sub in s] is the substring relation. *)
Lemma str_in_intro (a sub b : str) : str_in sub (a ++ sub ++ b) = true.
Proof.
  unfold str_in. destruct (find (a ++ sub ++ b) sub) eqn:F; [reflexivity|].
  pose proof (find_none_inv _ _ F (length a)) as H.
  rewrite skipn_length_app, startswith_app in H. discriminate.
Qed.

Lemma str_in_iff (sub s : str) :
  str_in sub s = true <-> exists a b, s = a ++ sub ++ b.
Proof.
  split.
  - unfold str_in. destruct (find s sub) as [j|] eqn:F; [|discriminate].
    intros _. eexists _, _. apply find_decomp, F.
  - intros (a & b & ->). apply str_in_intro.
Qed.

Lemma str_in_false_iff (sub s : str) :
  str_in sub s = false <-> forall a b, s <> a ++ sub ++ b.
Proof.
  split.
  - intros H a b E. subst s. rewrite str_in_intro in H. discriminate.
  - intros H. destruct (str_in sub s) eqn:E; [|reflexivity].
    apply str_in_iff in E. destruct E as (a & b & E). destruct (H a b E).
Qed.

Lemma str_in_find (sub s : str) :
  str_in sub s = true <-> exists j, find s sub = Some j.
Proof.
  unfold str_in. destruct (find s sub) as [j|]; split; intros H;
    try reflexivity; try discriminate; [eauto | destruct H; discriminate].
Qed.

Lemma str_in_find_none (sub s : str) :
  str_in sub s = false <-> find s sub = None.
Proof.
  unfold str_in. destruct (find s sub); split; intros H;
    try reflexivity; discriminate.
Qed.

(** Occurrences survive a larger context. *)
Lemma str_in_app_l (sub x y : str) :
  str_in sub x = true -> str_in sub (x ++ y) = true.
Proof.
  intros H. apply str_in_iff in H. destruct H as (a & b & ->).
  apply str_in_iff. exists a, (b ++ y). now rewrite <- !app_assoc.
Qed.

Lemma str_in_app_r (sub x y : str) :
  str_in sub y = true -> str_in sub (x ++ y) = true.
Proof.
  intros H. apply str_in_iff in H. destruct H as (a & b & ->).
  apply str_in_iff. exists (x ++ a), b. now rewrite <- !app_assoc.
Qed.

(** The text before the first occurrence is a prefix, and holds none. *)
Lemma upto_prefix (s sep : str) : exists t, s = upto s sep ++ t.
Proof.
  unfold upto. destruct (find s sep) as [j|].
  - exists (skipn j s). symmetry. apply firstn_skipn.
  - exists []. now rewrite app_nil_r.
Qed.

(** *** [split] *)

Section Split.
Variable sep : str.
Hypothesis sep_nonempty : sep <> [].

Lemma sep_length : 1 <= length sep.
Proof. destruct sep; [congruence | simpl; lia]. Qed.

Lemma split_loop_fuel (f1 f2 : nat) (s : str) :
  length s <= f1 -> length s <= f2 ->
  split_loop f1 s sep = split_loop f2 s sep.
Proof.
  revert f2 s. induction f1 as [|f1 IH]; intros [|f2] s H1 H2;
    cbn [split_loop]; try reflexivity.
  - destruct s; [|simpl in H1; lia]. now rewrite find_nil_sep.
  - destruct s; [|simpl in H2; lia]. now rewrite find_nil_sep.
  - destruct (find s sep) as [j|] eqn:F; [|reflexivity].
    f_equal. pose proof (find_bound _ _ _ F). pose proof sep_length.
    apply IH; rewrite length_skipn; lia.
Qed.

(** The loop of [split], unrolled once. *)
Lemma split_eq (s : str) :
  split s sep =
  match find s sep with
  | None => [s]
  | Some j => firstn j s :: split (skipn (j + length sep) s) sep
  end.
Proof.
  unfold split. destruct s as [|c s].
  - cbn [length split_loop]. now rewrite find_nil_sep.
  - cbn [length split_loop]. destruct (find (c :: s) sep) as [j|] eqn:F;
      [|reflexivity].
    f_equal. pose proof (find_bound _ _ _ F). pose proof sep_length.
    apply split_loop_fuel; rewrite ?length_skipn; cbn [length] in *; lia.
Qed.

Lemma split_absent (s : str) : str_in sep s = false -> split s sep = [s].
Proof.
  intros H. apply str_in_find_none in H. now rewrite split_eq, H.
Qed.

Lemma split_found (s : str) (j : nat) :
  find s sep = Some j ->
  split s sep = firstn j s :: split (skipn (j + length sep) s) sep.
Proof. intros H. now rewrite split_eq, H. Qed.

Lemma split_upto_after (s : str) :
  str_in sep s = true -> split s sep = upto s sep :: split (after s sep) sep.
Proof.
  intros H. apply str_in_find in H. destruct H as [j F].
  unfold upto, after. rewrite F. now apply split_found.
Qed.

(** An induction principle that follows the loop. *)
Lemma split_ind (P : str -> list str -> Prop) :
  (forall s, str_in sep s = false -> P s [s]) ->
  (forall s, str_in sep s = true ->
     P (after s sep) (split (after s sep) sep) ->
     P s (upto s sep :: split (after s sep) sep)) ->
  forall s, P s (split s sep).
Proof.
  intros Hn Hc s. remember (length s) as n eqn:En.
  revert s En. induction n as [n IH] using lt_wf_ind. intros s ->.
  destruct (str_in sep s) eqn:E.
  - rewrite split_upto_after by exact E. apply Hc; [exact E|].
    apply str_in_find in E. destruct E as [j F].
    apply IH with (m := length (after s sep)); [|reflexivity].
    unfold after. rewrite F, length_skipn.
    pose proof (find_bound _ _ _ F). pose proof sep_length. lia.
  - rewrite split_absent by exact E. apply Hn, E.
Qed.

Lemma split_nonempty (s : str) : split s sep <> [].
Proof. rewrite split_eq. destruct (find s sep); discriminate. Qed.

(** The first piece is the text before the first separator. *)
Lemma split_first (s : str) : nth_error (split s sep) 0 = Some (upto s sep).
Proof.
  rewrite split_eq. unfold upto. now destruct (find s sep).
Qed.

(** There is a second piece exactly when the separator occurs. *)
Lemma split_second (s : str) :
  nth_error (split s sep) 1 =
  if str_in sep s then Some (upto (after s sep) sep) else None.
Proof.
  destruct (str_in sep s) eqn:E.
  - rewrite split_upto_after by exact E. simpl. apply split_first.
  - now rewrite split_absent.
Qed.

Lemma split_tl (s : str) :
  tl (split s sep) = if str_in sep s then split (after s sep) sep else [].
Proof.
  destruct (str_in sep s) eqn:E.
  - now rewrite split_upto_after.
  - now rewrite split_absent.
Qed.

(** Joining the pieces with the separator gives the text back. *)
Lemma join_split (s : str) : join sep (split s sep) = s.
Proof.
  apply (split_ind (fun s l => join sep l = s)); clear s.
  - reflexivity.
  - intros s E IH. apply str_in_find in E. destruct E as [j F].
    pose proof (find_decomp _ _ _ F) as D.
    unfold upto, after in *. rewrite F in *.
    cbn [join]. destruct (split _ sep) eqn:S; [now apply split_nonempty in S|].
    rewrite IH. symmetry. exact D.
Qed.

(** The text is the first piece followed by the marked segments. *)
Lemma split_concat (s : str) :
  s = upto s sep ++ concat (map (app sep) (tl (split s sep))).
Proof.
  apply (split_ind (fun s l => s = upto s sep ++ concat (map (app sep) (tl l))));
    clear s.
  - intros s E. apply str_in_find_none in E. unfold upto. rewrite E.
    simpl. now rewrite app_nil_r.
  - intros s E IH. cbn [tl].
    pose proof (split_upto_after _ E) as S.
    assert (T : split (after s sep) sep =
                upto (after s sep) sep :: tl (split (after s sep) sep)).
    { pose proof (split_first (after s sep)) as F.
      destruct (split (after s sep) sep); [discriminate|].
      simpl in F. injection F as ->. reflexivity. }
    rewrite T. cbn [map concat]. rewrite <- app_assoc, <- IH.
    apply str_in_find in E. destruct E as [j F].
    unfold upto, after. rewrite F. apply find_decomp, F.
Qed.

(** The text before the first separator holds no separator. *)
Lemma firstn_find_free (s : str) (j : nat) :
  find s sep = Some j -> str_in sep (firstn j s) = false.
Proof.
  intros F. destruct (str_in sep (firstn j s)) eqn:G; [|reflexivity].
  exfalso. apply str_in_find in G. destruct G as [k G].
  pose proof (find_bound _ _ _ G) as B.
  pose proof (find_bound _ _ _ F) as B'.
  rewrite length_firstn in B.
  destruct (find_some_inv _ _ _ G) as [G1 _].
  destruct (find_some_inv _ _ _ F) as [_ F2].
  pose proof sep_length.
  assert (K : k < j) by lia.
  specialize (F2 k K).
  apply startswith_iff in G1. destruct G1 as [t G1].
  assert (S : skipn k s = sep ++ t ++ skipn j s).
  { rewrite <- (firstn_skipn j s) at 1. rewrite skipn_app, G1.
    rewrite length_firstn.
    replace (k - Nat.min j (length s)) with 0 by lia.
    now rewrite <- app_assoc. }
  rewrite S, startswith_app in F2. discriminate.
Qed.

Lemma upto_free (s : str) : str_in sep (upto s sep) = false.
Proof.
  unfold upto. destruct (find s sep) as [j|] eqn:F.
  - apply firstn_find_free, F.
  - apply str_in_find_none, F.
Qed.

(** Every piece is free of the separator. *)
Lemma split_pieces_free (s : str) :
  Forall (fun p => str_in sep p = false) (split s sep).
Proof.
  apply (split_ind (fun _ l => Forall (fun p => str_in sep p = false) l));
    clear s.
  - intros s E. constructor; [exact E | constructor].
  - intros s E IH. constructor; [apply upto_free | exact IH].
Qed.

End Split.

End StrFacts.

(** * The parser, case by case *)

Section ParserFacts.

Lemma SUMMARY_HEADING_nonempty : SUMMARY_HEADING <> [].
Proof. discriminate. Qed.

Lemma EXTRACTION_HEADING_nonempty : EXTRACTION_HEADING <> [].
Proof. discriminate. Qed.

Lemma MARKER_nonempty : MARKER <> [].
Proof. discriminate. Qed.

Lemma getitem_tl {A : Type} (l : list A) (i : nat) :
  getitem l (S i) = getitem (tl l) i.
Proof. destruct l; [now destruct i | reflexivity]. Qed.

Lemma getitem_nth (l : list str) (i : nat) :
  getitem l i = if i <? length l then Ok (nth i l []) else Raise IndexError.
Proof.
  unfold getitem. destruct (Nat.ltb_spec i (length l)) as [L|L].
  - now rewrite (nth_error_nth' l [] L).
  - apply nth_error_None in L. now rewrite L.
Qed.

Lemma getitem_split_0 (s sep : str) :
  sep <> [] -> getitem (split s sep) 0 = Ok (upto s sep).
Proof. intros H. unfold getitem. now rewrite split_first. Qed.

Lemma getitem_split_1 (s sep : str) :
  sep <> [] ->
  getitem (split s sep) 1 =
  if str_in sep s then Ok (upto (after s sep) sep) else Raise IndexError.
Proof.
  intros H. unfold getitem. rewrite split_second by exact H.
  now destruct (str_in sep s).
Qed.

Lemma parse_extraction_eq (response : str) :
  parse_extraction (split response SUMMARY_HEADING) =
  if str_in EXTRACTION_HEADING (pre_summary response) then
    if 7 <=? length (segments (extraction_region response))
    then Ok (extraction_of (segments (extraction_region response)))
    else Raise IndexError
  else Raise IndexError.
Proof.
  unfold parse_extraction.
  rewrite getitem_split_0 by apply SUMMARY_HEADING_nonempty.
  cbn [bind]. fold (pre_summary response).
  rewrite getitem_split_1 by apply EXTRACTION_HEADING_nonempty.
  destruct (str_in EXTRACTION_HEADING (pre_summary response)); [|reflexivity].
  cbn [bind]. fold (extraction_region response).
  rewrite !getitem_tl. fold (segments (extraction_region response)).
  destruct (segments (extraction_region response))
    as [|s1 [|s2 [|s3 [|s4 [|s5 [|s6 [|s7 rest]]]]]]]; reflexivity.
Qed.

(** What [parse_response] does on every reply. *)
Lemma parse_response_eq (response : str) :
  parse_response response =
  if str_in SUMMARY_HEADING response then
    if str_in SKIPPED response then
      Ok {| full_response := response;
            skipped_info_extraction := true;
            info_extraction := None;
            chapter_summary := lit "## Chapter Summary" ++ summary_text response |}
    else if str_in EXTRACTION_HEADING (pre_summary response) then
      if 7 <=? length (segments (extraction_region response)) then
        Ok {| full_response := response;
              skipped_info_extraction := false;
              info_extraction :=
                Some (extraction_of (segments (extraction_region response)));
              chapter_summary := lit "## Chapter Summary" ++ summary_text response |}
      else Raise IndexError
    else Raise IndexError
  else Raise IndexError.
Proof.
  unfold parse_response.
  rewrite getitem_split_1 by apply SUMMARY_HEADING_nonempty.
  destruct (str_in SUMMARY_HEADING response); [|reflexivity].
  cbn [bind]. fold (summary_text response).
  destruct (str_in SKIPPED response); [reflexivity|].
  rewrite parse_extraction_eq.
  destruct (str_in EXTRACTION_HEADING (pre_summary response)); [|reflexivity].
  destruct (7 <=? length (segments (extraction_region response)));
    reflexivity.
Qed.

End ParserFacts.

(** * Occurrences in a concatenation *)

Section Overlap.

Lemma str_in_refl (w : str) : str_in w w = true.
Proof.
  apply str_in_iff. exists [], []. now rewrite app_nil_r.
Qed.

(** An occurrence of [w] in [x ++ y] lies in [x], lies in [y], or straddles
    the seam. *)
Lemma str_in_app_cases (w x y : str) :
  str_in w (x ++ y) = true ->
  str_in w x = true \/ str_in w y = true \/
  exists u v, u <> [] /\ v <> [] /\ w = u ++ v /\
              (exists x', x = x' ++ u) /\ (exists y', y = v ++ y').
Proof.
  intros H. apply str_in_iff in H. destruct H as (a & b & E).
  apply app_eq_app in E. destruct E as [l [[Ex Ey]|[Ea Ey]]].
  - apply app_eq_app in Ey.
    destruct Ey as [m [[Ew Eb]|[El Eb]]].
    + destruct l as [|c l].
      * right. left. apply str_in_iff. exists [], b.
        simpl in Ew. subst. reflexivity.
      * destruct m as [|d m].
        -- left. rewrite app_nil_r in Ew. subst.
           apply str_in_iff. exists a, []. now rewrite app_nil_r.
        -- right. right. exists (c :: l), (d :: m).
           repeat split; try discriminate; eauto.
    + left. subst. apply str_in_iff. exists a, m. reflexivity.
  - right. left. subst. apply str_in_iff. exists l, b. reflexivity.
Qed.

Lemma overlap_false (x y u x' y' : str) :
  overlap x y = false -> u <> [] -> x = x' ++ u -> y = u ++ y' -> False.
Proof.
  intros H Hu -> ->.
  assert (E : overlap (x' ++ u) (u ++ y') = true).
  { unfold overlap. apply existsb_exists. exists (length u). split.
    - apply in_seq. rewrite length_app.
      destruct u; [congruence | simpl; lia].
    - rewrite length_app.
      replace (length x' + length u - length u) with (length x') by lia.
      rewrite skipn_length_app. apply startswith_app. }
  rewrite E in H. discriminate.
Qed.

(** A fixed block [A] on the left: no occurrence of [w] in it, none that
    begins in it. *)
Lemma str_in_after_fixed (w A Y : str) :
  str_in w A = false -> overlap A w = false ->
  str_in w Y = false -> str_in w (A ++ Y) = false.
Proof.
  intros HA HO HY. destruct (str_in w (A ++ Y)) eqn:E; [|reflexivity].
  apply str_in_app_cases in E.
  destruct E as [E|[E|(u & v & Hu & Hv & Ew & [x' Ex] & [y' Ey])]];
    try congruence.
  exfalso. eapply overlap_false; [exact HO | exact Hu | exact Ex | exact Ew].
Qed.

(** A free text [t] on the left of a fixed block [B]: no occurrence of [w]
    can end in [B] or run across it. *)
Lemma str_in_before_fixed (w t B Y : str) :
  str_in w t = false -> overlap w B = false -> str_in B w = false ->
  str_in w (B ++ Y) = false -> str_in w (t ++ B ++ Y) = false.
Proof.
  intros Ht HO HB HY. destruct (str_in w (t ++ B ++ Y)) eqn:E; [|reflexivity].
  apply str_in_app_cases in E.
  destruct E as [E|[E|(u & v & Hu & Hv & Ew & [x' Ex] & [y' Ey])]];
    try congruence.
  exfalso. apply app_eq_app in Ey. destruct Ey as [l [[EB EY]|[Ev EY]]].
  - eapply overlap_false; [exact HO | exact Hv | exact Ew | exact EB].
  - subst w v. rewrite str_in_intro in HB. discriminate.
Qed.

(** A text no proper suffix of which begins it again cannot occur at two
    overlapping places. *)
Lemma occurrences_disjoint (w s : str) (i k : nat) :
  overlap (tl w) w = false ->
  startswith (skipn i s) w = true ->
  0 < k < length w ->
  startswith (skipn (i + k) s) w = false.
Proof.
  intros HO Hi [K1 K2].
  destruct (startswith (skipn (i + k) s) w) eqn:E; [|reflexivity].
  exfalso. apply startswith_iff in Hi. destruct Hi as [t Hi].
  rewrite Nat.add_comm, <- skipn_skipn, Hi, skipn_app in E.
  replace (k - length w) with 0 in E by lia. cbn [skipn] in E.
  apply startswith_iff in E. destruct E as [t' E].
  apply app_eq_app in E. destruct E as [l [[E1 E2]|[E1 E2]]].
  - apply (f_equal (@length char)) in E1.
    rewrite length_skipn, length_app in E1. lia.
  - destruct w as [|c w']; [simpl in K2; lia|].
    destruct k as [|k]; [lia|]. cbn [skipn tl] in *.
    eapply (overlap_false w' (c :: w') (skipn k w') (firstn k w') l).
    + exact HO.
    + intros N. apply (f_equal (@length char)) in N.
      rewrite length_skipn in N. simpl in *. lia.
    + symmetry. apply firstn_skipn.
    + exact E1.
Qed.

End Overlap.

(** * Meaning of the cuts *)

(** The summary heading cannot overlap itself: its occurrences in a reply
    are apart, so the second one is the first one of the text after the
    first. *)
Lemma summary_heading_disjoint (s : str) (i k : nat) :
  startswith (skipn i s) SUMMARY_HEADING = true ->
  0 < k < length SUMMARY_HEADING ->
  startswith (skipn (i + k) s) SUMMARY_HEADING = false.
Proof. apply occurrences_disjoint. vm_compute. reflexivity. Qed.

(** What the parser cuts the region into: the region is the text before
    its first marker followed by the marked segments, none of which holds
    a marker. *)
Lemma segments_spec (text : str) :
  text = upto text MARKER ++ concat (map (app MARKER) (segments text)) /\
  Forall (fun p => str_in MARKER p = false) (segments text).
Proof.
  split.
  - apply (split_concat MARKER MARKER_nonempty).
  - pose proof (split_pieces_free MARKER MARKER_nonempty text) as F.
    unfold segments. destruct (split text MARKER); [constructor|].
    now inversion F.
Qed.

(** The pre-summary block and the summary heading open the reply. *)
Lemma pre_summary_spec (response : str) :
  str_in SUMMARY_HEADING response = true ->
  response = pre_summary response ++ SUMMARY_HEADING ++ after response SUMMARY_HEADING /\
  str_in SUMMARY_HEADING (pre_summary response) = false.
Proof.
  intros H. split; [|apply (upto_free SUMMARY_HEADING SUMMARY_HEADING_nonempty)].
  apply str_in_find in H. destruct H as [j F].
  unfold pre_summary, upto, after. rewrite F. apply find_decomp, F.
Qed.

(** * Facts on the prompt *)

Section PromptFacts.

Lemma instructions_eq (prev_chap_context : option str) :
  instructions prev_chap_context =
  instructions_text ++
  match prev_chap_context with Some _ => continuity_clause | None => [] end.
Proof.
  unfold instructions.
  destruct prev_chap_context; [reflexivity | symmetry; apply app_nil_r].
Qed.

(** The prompt as its fixed blocks around the caller's texts. *)
Lemma template_eq (title content : str) (story_so_far prev_chap_context : option str) :
  template title content story_so_far prev_chap_context =
  prompt_head ++
  match story_so_far with
  | Some s => story_open ++ s ++ newline
  | None => []
  end ++
  match prev_chap_context with
  | Some p => previous_open ++ p ++ newline
  | None => []
  end ++
  context_open ++ title ++ content_open ++ content ++ prompt_tail prev_chap_context.
Proof.
  unfold template, prompt_tail, prompt_head, story_open, previous_open,
    newline, context_open, content_open.
  destruct story_so_far, prev_chap_context; cbn zeta;
    rewrite <- ?app_assoc; reflexivity.
Qed.

Lemma prompt_tail_clause (p : str) :
  str_in continuity_clause (prompt_tail (Some p)) = true.
Proof.
  unfold prompt_tail. apply str_in_app_r, str_in_app_l.
  rewrite instructions_eq. apply str_in_app_r, str_in_refl.
Qed.

End PromptFacts.

(** Looks for the fixed block of a concatenation that holds the wanted text. *)
Ltac find_block :=
  first [ apply str_in_app_l; solve [vm_compute; reflexivity]
        | apply str_in_app_r; find_block
        | solve [vm_compute; reflexivity] ].

(** Closes a side condition on fixed texts by evaluation. *)
Ltac by_eval := vm_compute; reflexivity.

(** * The operations on sample texts *)

Example split_overlapping_markers :
  split (lit "a####b") (lit "###") = [lit "a"; lit "#b"].
Proof. reflexivity. Qed.

Example split_trailing_separator :
  split (lit "a##") (lit "##") = [lit "a"; lit ""].
Proof. reflexivity. Qed.

Example split_empty_text : split (lit "") (lit "##") = [lit ""].
Proof. reflexivity. Qed.

Example strip_unicode_space :
  strip ([0x2003; 0x0A] ++ lit "a b" ++ [0x20; 0x3000])%N = lit "a b".
Proof. reflexivity. Qed.

Example find_lowest : find (lit "abcabc") (lit "bc") = Some 1.
Proof. reflexivity. Qed.

Example literal_lengths :
  (length task, length instructions_text, length continuity_clause,
   length general_reminders) = (403, 4165, 174, 532).
Proof. by_eval. Qed.

(** The seven fields of a reply in the expected format, as literal text. *)
Example parse_reply_full :
  parse_response reply_full =
  Ok {| full_response := reply_full;
        skipped_info_extraction := false;
        info_extraction :=
          Some {| characters := lit "### Entities
 - Ann, a smith
";
                  events := lit "### Chronology
 - The forge burns
";
                  locations := lit "### Locations
 - The village
";
                  organizations := lit "### Organizations
 - The guild
";
                  things := lit "### Things
 - A hammer
";
                  concepts := lit "### Concepts
 - Duty
";
                  main_arc := lit "### Story Arc
- The feud" |};
        chapter_summary := lit "## Chapter Summary
- Ann loses the forge." |}.
Proof. by_eval. Qed.

(** An eighth section is dropped. *)
Example parse_reply_extra :
  option_map main_arc
    match parse_response reply_extra with
    | Ok r => info_extraction r
    | Raise _ => None
    end = Some (lit "### Story Arc
- The feud
").
Proof. by_eval. Qed.

(** Only the text between the first two summary headings is kept. *)
Example parse_reply_two_summaries :
  match parse_response reply_two_summaries with
  | Ok r => Some (chapter_summary r)
  | Raise _ => None
  end = Some (lit "## Chapter Summary
- First.
").
Proof. by_eval. Qed.

(** A sentinel quoted in the summary switches the extraction off. *)
Example parse_reply_sentinel_in_summary :
  match parse_response reply_sentinel_in_summary with
  | Ok r => Some (skipped_info_extraction r, info_extraction r)
  | Raise _ => None
  end = Some (true, None).
Proof. by_eval. Qed.

Example parse_reply_short : parse_response reply_short = Raise IndexError.
Proof. by_eval. Qed.

(** * The parser's contract *)

(** C1. A reply that holds the summary heading, does not hold the skip
    sentinel, holds the extraction heading before the summary heading, and
    whose extraction region has at least seven marked segments parses
    successfully: the first seven segments go, in order, to characters,
    events, locations, organizations, things, concepts and main_arc, each
    with the marker put back in front. *)
Theorem parse_response_well_formed (response : str) :
  str_in SUMMARY_HEADING response = true ->
  str_in SKIPPED response = false ->
  str_in EXTRACTION_HEADING (pre_summary response) = true ->
  7 <= length (segments (extraction_region response)) ->
  exists s1 s2 s3 s4 s5 s6 s7 rest,
    segments (extraction_region response)
      = s1 :: s2 :: s3 :: s4 :: s5 :: s6 :: s7 :: rest /\
    parse_response response =
      Ok {| full_response := response;
            skipped_info_extraction := false;
            info_extraction :=
              Some {| characters := MARKER ++ s1;
                      events := MARKER ++ s2;
                      locations := MARKER ++ s3;
                      organizations := MARKER ++ s4;
                      things := MARKER ++ s5;
                      concepts := MARKER ++ s6;
                      main_arc := MARKER ++ s7 |};
            chapter_summary := lit "## Chapter Summary" ++ summary_text response |}.
Proof.
  intros Hsum Hskip Hext Hseg. rewrite parse_response_eq, Hsum, Hskip, Hext.
  apply Nat.leb_le in Hseg. rewrite Hseg.
  apply Nat.leb_le in Hseg.
  destruct (segments (extraction_region response))
    as [|s1 [|s2 [|s3 [|s4 [|s5 [|s6 [|s7 rest]]]]]]];
    simpl in Hseg; try lia.
  exists s1, s2, s3, s4, s5, s6, s7, rest. split; reflexivity.
Qed.

Lemma parse_response_well_formed_witness :
  str_in SUMMARY_HEADING reply_full = true /\
  str_in SKIPPED reply_full = false /\
  str_in EXTRACTION_HEADING (pre_summary reply_full) = true /\
  7 <= length (segments (extraction_region reply_full)) /\
  exists s1 s2 s3 s4 s5 s6 s7 rest,
    segments (extraction_region reply_full)
      = s1 :: s2 :: s3 :: s4 :: s5 :: s6 :: s7 :: rest /\
    parse_response reply_full =
      Ok {| full_response := reply_full;
            skipped_info_extraction := false;
            info_extraction :=
              Some {| characters := MARKER ++ s1;
                      events := MARKER ++ s2;
                      locations := MARKER ++ s3;
                      organizations := MARKER ++ s4;
                      things := MARKER ++ s5;
                      concepts := MARKER ++ s6;
                      main_arc := MARKER ++ s7 |};
            chapter_summary := lit "## Chapter Summary" ++ summary_text reply_full |}.
Proof.
  assert (H1 : str_in SUMMARY_HEADING reply_full = true) by by_eval.
  assert (H2 : str_in SKIPPED reply_full = false) by by_eval.
  assert (H3 : str_in EXTRACTION_HEADING (pre_summary reply_full) = true)
    by by_eval.
  assert (H4 : 7 <= length (segments (extraction_region reply_full)))
    by (vm_compute; lia).
  split; [exact H1 | split; [exact H2 | split; [exact H3 | split; [exact H4|]]]].
  exact (parse_response_well_formed reply_full H1 H2 H3 H4).
Defined.

(** C2. Whenever [parse_response] returns, the extraction is present exactly
    when the skipped flag is false. *)
Theorem extraction_present_iff_not_skipped (response : str) (r : ReadChapterResponse) :
  parse_response response = Ok r ->
  (info_extraction r <> None <-> skipped_info_extraction r = false).
Proof.
  rewrite parse_response_eq. intros H.
  destruct (str_in SUMMARY_HEADING response); [|discriminate].
  destruct (str_in SKIPPED response).
  - injection H as <-. simpl. split; [congruence | discriminate].
  - destruct (str_in EXTRACTION_HEADING (pre_summary response)); [|discriminate].
    destruct (7 <=? length (segments (extraction_region response)));
      [|discriminate].
    injection H as <-. simpl. split; [reflexivity | discriminate].
Qed.

Lemma extraction_present_iff_not_skipped_witness :
  exists r, parse_response reply_full = Ok r /\
    (info_extraction r <> None <-> skipped_info_extraction r = false).
Proof.
  assert (H : exists r, parse_response reply_full = Ok r)
    by (eexists; by_eval).
  destruct H as [r H]. exists r. split; [exact H|].
  exact (extraction_present_iff_not_skipped reply_full r H).
Defined.

(** C3. A reply holding the skip sentinel and the summary heading parses
    with the skipped flag set, no extraction, and the summary taken from the
    text after the summary heading; whether the extraction heading or any
    category is there plays no role. *)
Theorem parse_response_skipped (response : str) :
  str_in SKIPPED response = true ->
  str_in SUMMARY_HEADING response = true ->
  parse_response response =
    Ok {| full_response := response;
          skipped_info_extraction := true;
          info_extraction := None;
          chapter_summary := lit "## Chapter Summary" ++ summary_text response |}.
Proof.
  intros Hskip Hsum. now rewrite parse_response_eq, Hsum, Hskip.
Qed.

Lemma parse_response_skipped_witness :
  str_in SKIPPED reply_skipped = true /\
  str_in SUMMARY_HEADING reply_skipped = true /\
  parse_response reply_skipped =
    Ok {| full_response := reply_skipped;
          skipped_info_extraction := true;
          info_extraction := None;
          chapter_summary := lit "## Chapter Summary" ++ summary_text reply_skipped |}.
Proof.
  assert (H1 : str_in SKIPPED reply_skipped = true) by by_eval.
  assert (H2 : str_in SUMMARY_HEADING reply_skipped = true) by by_eval.
  split; [exact H1 | split; [exact H2|]].
  exact (parse_response_skipped reply_skipped H1 H2).
Defined.

(** C4. Without the skip sentinel, an extraction region with fewer than
    seven marked segments makes [parse_response] raise [IndexError]; and a
    reply that does parse without the sentinel has all seven category fields
    assigned: there is no partly filled extraction. *)
Theorem parse_response_too_few_sections (response : str) :
  str_in SKIPPED response = false ->
  (length (segments (extraction_region response)) < 7 ->
   parse_response response = Raise IndexError) /\
  (forall r, parse_response response = Ok r ->
     exists s1 s2 s3 s4 s5 s6 s7 rest,
       segments (extraction_region response)
         = s1 :: s2 :: s3 :: s4 :: s5 :: s6 :: s7 :: rest /\
       info_extraction r =
         Some {| characters := MARKER ++ s1;
                 events := MARKER ++ s2;
                 locations := MARKER ++ s3;
                 organizations := MARKER ++ s4;
                 things := MARKER ++ s5;
                 concepts := MARKER ++ s6;
                 main_arc := MARKER ++ s7 |}).
Proof.
  intros Hskip. rewrite parse_response_eq, Hskip. split.
  - intros Hseg. apply Nat.leb_gt in Hseg. rewrite Hseg.
    destruct (str_in SUMMARY_HEADING response); [|reflexivity].
    now destruct (str_in EXTRACTION_HEADING (pre_summary response)).
  - intros r H.
    destruct (str_in SUMMARY_HEADING response); [|discriminate].
    destruct (str_in EXTRACTION_HEADING (pre_summary response)); [|discriminate].
    destruct (7 <=? length (segments (extraction_region response))) eqn:Hseg;
      [|discriminate].
    injection H as <-. apply Nat.leb_le in Hseg.
    destruct (segments (extraction_region response))
      as [|s1 [|s2 [|s3 [|s4 [|s5 [|s6 [|s7 rest]]]]]]];
      simpl in Hseg; try lia.
    exists s1, s2, s3, s4, s5, s6, s7, rest. split; reflexivity.
Qed.

Lemma parse_response_too_few_sections_witness :
  (str_in SKIPPED reply_short = false /\
   length (segments (extraction_region reply_short)) < 7 /\
   parse_response reply_short = Raise IndexError) /\
  (str_in SKIPPED reply_full = false /\
   exists r, parse_response reply_full = Ok r /\
     exists s1 s2 s3 s4 s5 s6 s7 rest,
       segments (extraction_region reply_full)
         = s1 :: s2 :: s3 :: s4 :: s5 :: s6 :: s7 :: rest /\
       info_extraction r =
         Some {| characters := MARKER ++ s1;
                 events := MARKER ++ s2;
                 locations := MARKER ++ s3;
                 organizations := MARKER ++ s4;
                 things := MARKER ++ s5;
                 concepts := MARKER ++ s6;
                 main_arc := MARKER ++ s7 |}).
Proof.
  assert (H1 : str_in SKIPPED reply_short = false) by by_eval.
  assert (H2 : length (segments (extraction_region reply_short)) < 7)
    by (vm_compute; lia).
  assert (H3 : str_in SKIPPED reply_full = false) by by_eval.
  assert (H4 : exists r, parse_response reply_full = Ok r)
    by (eexists; by_eval).
  split.
  - split; [exact H1 | split; [exact H2|]].
    exact (proj1 (parse_response_too_few_sections reply_short H1) H2).
  - split; [exact H3|]. destruct H4 as [r H4]. exists r. split; [exact H4|].
    exact (proj2 (parse_response_too_few_sections reply_full H3) r H4).
Defined.

(** C5. A reply without the literal summary heading, or without both the
    skip sentinel and the literal extraction heading, makes [parse_response]
    raise [IndexError]: the exception of the failed list index, as it is. *)
Theorem parse_response_missing_heading (response : str) :
  str_in SUMMARY_HEADING response = false \/
  (str_in SKIPPED response = false /\
   str_in EXTRACTION_HEADING response = false) ->
  parse_response response = Raise IndexError.
Proof.
  rewrite parse_response_eq. intros [H|[Hskip Hext]].
  - now rewrite H.
  - rewrite Hskip.
    destruct (str_in SUMMARY_HEADING response); [|reflexivity].
    assert (E : str_in EXTRACTION_HEADING (pre_summary response) = false).
    { destruct (str_in EXTRACTION_HEADING (pre_summary response)) eqn:E;
        [|reflexivity].
      destruct (upto_prefix response SUMMARY_HEADING) as [t P].
      rewrite P in Hext. fold (pre_summary response) in Hext.
      rewrite (str_in_app_l _ _ t E) in Hext. discriminate. }
    now rewrite E.
Qed.

Lemma parse_response_missing_heading_witness :
  (str_in SUMMARY_HEADING reply_lowercase_heading = false /\
   parse_response reply_lowercase_heading = Raise IndexError) /\
  (str_in SKIPPED reply_no_extraction_heading = false /\
   str_in EXTRACTION_HEADING reply_no_extraction_heading = false /\
   parse_response reply_no_extraction_heading = Raise IndexError).
Proof.
  assert (H1 : str_in SUMMARY_HEADING reply_lowercase_heading = false)
    by by_eval.
  assert (H2 : str_in SKIPPED reply_no_extraction_heading = false) by by_eval.
  assert (H3 : str_in EXTRACTION_HEADING reply_no_extraction_heading = false)
    by by_eval.
  split.
  - split; [exact H1|].
    exact (parse_response_missing_heading reply_lowercase_heading (or_introl H1)).
  - split; [exact H2 | split; [exact H3|]].
    exact (parse_response_missing_heading reply_no_extraction_heading
             (or_intror (conj H2 H3))).
Defined.

(** C8. Without the skip sentinel and with both headings in place, an
    extraction region with more than seven marked segments still parses:
    the fields take the first seven segments, and the eighth and later
    segments are dropped. The region is the text before its first marker,
    then the seven fields, then the dropped segments, so no field holds any
    of the later text. *)
Theorem parse_response_extra_sections (response : str) :
  str_in SUMMARY_HEADING response = true ->
  str_in SKIPPED response = false ->
  str_in EXTRACTION_HEADING (pre_summary response) = true ->
  7 < length (segments (extraction_region response)) ->
  exists s1 s2 s3 s4 s5 s6 s7 s8 rest e,
    segments (extraction_region response)
      = s1 :: s2 :: s3 :: s4 :: s5 :: s6 :: s7 :: s8 :: rest /\
    e = {| characters := MARKER ++ s1;
           events := MARKER ++ s2;
           locations := MARKER ++ s3;
           organizations := MARKER ++ s4;
           things := MARKER ++ s5;
           concepts := MARKER ++ s6;
           main_arc := MARKER ++ s7 |} /\
    parse_response response =
      Ok {| full_response := response;
            skipped_info_extraction := false;
            info_extraction := Some e;
            chapter_summary := lit "## Chapter Summary" ++ summary_text response |} /\
    extraction_region response =
      upto (extraction_region response) MARKER ++
      characters e ++ events e ++ locations e ++ organizations e ++
      things e ++ concepts e ++ main_arc e ++
      concat (map (app MARKER) (s8 :: rest)).
Proof.
  intros Hsum Hskip Hext Hseg. rewrite parse_response_eq, Hsum, Hskip, Hext.
  assert (L : (7 <=? length (segments (extraction_region response))) = true)
    by (apply Nat.leb_le; lia).
  rewrite L.
  pose proof (split_concat MARKER MARKER_nonempty (extraction_region response)) as D.
  fold (segments (extraction_region response)) in D.
  destruct (segments (extraction_region response))
    as [|s1 [|s2 [|s3 [|s4 [|s5 [|s6 [|s7 [|s8 rest]]]]]]]];
    simpl in Hseg; try lia.
  do 9 eexists. exists (extraction_of (s1 :: s2 :: s3 :: s4 :: s5 :: s6 :: s7 :: s8 :: rest)).
  split; [reflexivity|]. split; [reflexivity|]. split; [reflexivity|].
  exact D.
Qed.

Lemma parse_response_extra_sections_witness :
  str_in SUMMARY_HEADING reply_extra = true /\
  str_in SKIPPED reply_extra = false /\
  str_in EXTRACTION_HEADING (pre_summary reply_extra) = true /\
  7 < length (segments (extraction_region reply_extra)) /\
  exists s1 s2 s3 s4 s5 s6 s7 s8 rest e,
    segments (extraction_region reply_extra)
      = s1 :: s2 :: s3 :: s4 :: s5 :: s6 :: s7 :: s8 :: rest /\
    e = {| characters := MARKER ++ s1;
           events := MARKER ++ s2;
           locations := MARKER ++ s3;
           organizations := MARKER ++ s4;
           things := MARKER ++ s5;
           concepts := MARKER ++ s6;
           main_arc := MARKER ++ s7 |} /\
    parse_response reply_extra =
      Ok {| full_response := reply_extra;
            skipped_info_extraction := false;
            info_extraction := Some e;
            chapter_summary := lit "## Chapter Summary" ++ summary_text reply_extra |} /\
    extraction_region reply_extra =
      upto (extraction_region reply_extra) MARKER ++
      characters e ++ events e ++ locations e ++ organizations e ++
      things e ++ concepts e ++ main_arc e ++
      concat (map (app MARKER) (s8 :: rest)).
Proof.
  assert (H1 : str_in SUMMARY_HEADING reply_extra = true) by by_eval.
  assert (H2 : str_in SKIPPED reply_extra = false) by by_eval.
  assert (H3 : str_in EXTRACTION_HEADING (pre_summary reply_extra) = true)
    by by_eval.
  assert (H4 : 7 < length (segments (extraction_region reply_extra)))
    by (vm_compute; lia).
  split; [exact H1 | split; [exact H2 | split; [exact H3 | split; [exact H4|]]]].
  exact (parse_response_extra_sections reply_extra H1 H2 H3 H4).
Defined.

(** C9. On every reply that parses, the summary field is the rewritten
    heading [## Chapter Summary] followed by the text after the first
    occurrence of [## General Chapter Summary]: all of it when the heading
    does not occur again, and only the text up to the next occurrence when
    it does. *)
Theorem chapter_summary_shape (response : str) (r : ReadChapterResponse) :
  parse_response response = Ok r ->
  exists before rest,
    response = before ++ SUMMARY_HEADING ++ rest /\
    find response SUMMARY_HEADING = Some (length before) /\
    str_in SUMMARY_HEADING before = false /\
    ((str_in SUMMARY_HEADING rest = false /\
      chapter_summary r = lit "## Chapter Summary" ++ rest) \/
     (exists between tail,
        rest = between ++ SUMMARY_HEADING ++ tail /\
        find rest SUMMARY_HEADING = Some (length between) /\
        str_in SUMMARY_HEADING between = false /\
        chapter_summary r = lit "## Chapter Summary" ++ between)).
Proof.
  intros H.
  assert (S : str_in SUMMARY_HEADING response = true /\
              chapter_summary r = lit "## Chapter Summary" ++ summary_text response).
  { rewrite parse_response_eq in H.
    destruct (str_in SUMMARY_HEADING response); [|discriminate].
    destruct (str_in SKIPPED response).
    - injection H as <-. split; reflexivity.
    - destruct (str_in EXTRACTION_HEADING (pre_summary response)); [|discriminate].
      destruct (7 <=? length (segments (extraction_region response)));
        [|discriminate].
      injection H as <-. split; reflexivity. }
  destruct S as [Hin Hsum]. clear H.
  apply str_in_find in Hin. destruct Hin as [j F].
  unfold summary_text, after in Hsum. rewrite F in Hsum.
  exists (firstn j response), (skipn (j + length SUMMARY_HEADING) response).
  pose proof (find_bound _ _ _ F) as B.
  assert (Lj : length (firstn j response) = j)
    by (rewrite length_firstn; lia).
  split; [apply find_decomp, F|].
  split; [now rewrite Lj|].
  split; [apply (firstn_find_free SUMMARY_HEADING SUMMARY_HEADING_nonempty), F|].
  set (rest := skipn (j + length SUMMARY_HEADING) response) in *.
  unfold upto in Hsum. destruct (find rest SUMMARY_HEADING) as [k|] eqn:G.
  - right. pose proof (find_bound _ _ _ G) as B'.
    assert (Lk : length (firstn k rest) = k)
      by (rewrite length_firstn; lia).
    exists (firstn k rest), (skipn (k + length SUMMARY_HEADING) rest).
    split; [apply find_decomp, G|].
    split; [now rewrite Lk|].
    split; [apply (firstn_find_free SUMMARY_HEADING SUMMARY_HEADING_nonempty), G | exact Hsum].
  - left. split; [apply str_in_find_none, G | exact Hsum].
Qed.

Lemma chapter_summary_shape_witness :
  exists r, parse_response reply_two_summaries = Ok r /\
  exists before rest,
    reply_two_summaries = before ++ SUMMARY_HEADING ++ rest /\
    find reply_two_summaries SUMMARY_HEADING = Some (length before) /\
    str_in SUMMARY_HEADING before = false /\
    ((str_in SUMMARY_HEADING rest = false /\
      chapter_summary r = lit "## Chapter Summary" ++ rest) \/
     (exists between tail,
        rest = between ++ SUMMARY_HEADING ++ tail /\
        find rest SUMMARY_HEADING = Some (length between) /\
        str_in SUMMARY_HEADING between = false /\
        chapter_summary r = lit "## Chapter Summary" ++ between)).
Proof.
  assert (H : exists r, parse_response reply_two_summaries = Ok r)
    by (eexists; by_eval).
  destruct H as [r H]. exists r. split; [exact H|].
  exact (chapter_summary_shape reply_two_summaries r H).
Defined.

(** C10. The skipped flag is a plain substring test on the whole reply: on
    every reply that parses, the flag is true exactly when the sentinel
    [<SKIPPED-EXTRACTION>] occurs somewhere in the reply, wherever that is. *)
Theorem skipped_flag_is_substring_test (response : str) (r : ReadChapterResponse) :
  parse_response response = Ok r ->
  (skipped_info_extraction r = true <->
   exists a b, response = a ++ SKIPPED ++ b).
Proof.
  intros H. rewrite <- str_in_iff. rewrite parse_response_eq in H.
  destruct (str_in SUMMARY_HEADING response); [|discriminate].
  destruct (str_in SKIPPED response).
  - injection H as <-. simpl. tauto.
  - destruct (str_in EXTRACTION_HEADING (pre_summary response)); [|discriminate].
    destruct (7 <=? length (segments (extraction_region response)));
      [|discriminate].
    injection H as <-. simpl. tauto.
Qed.

Lemma skipped_flag_is_substring_test_witness :
  exists r, parse_response reply_sentinel_in_summary = Ok r /\
    (skipped_info_extraction r = true <->
     exists a b, reply_sentinel_in_summary = a ++ SKIPPED ++ b).
Proof.
  assert (H : exists r, parse_response reply_sentinel_in_summary = Ok r)
    by (eexists; by_eval).
  destruct H as [r H]. exists r. split; [exact H|].
  exact (skipped_flag_is_substring_test reply_sentinel_in_summary r H).
Defined.

(** * The prompt builder's contract *)

(** Without a previous-chapter context, the clause is in the prompt only if
    the caller's own texts bring it. *)
Lemma template_without_clause (title content : str) (story_so_far : option str) :
  str_in continuity_clause title = false ->
  str_in continuity_clause content = false ->
  (forall s, story_so_far = Some s -> str_in continuity_clause s = false) ->
  str_in continuity_clause (template title content story_so_far None) = false.
Proof.
  intros Ht Hc Hs. rewrite template_eq.
  assert (Tail : str_in continuity_clause
                   (context_open ++ title ++ content_open ++ content ++
                    prompt_tail None) = false).
  { apply str_in_after_fixed; [by_eval | by_eval |].
    apply str_in_before_fixed; [exact Ht | by_eval | by_eval |].
    apply str_in_after_fixed; [by_eval | by_eval |].
    rewrite <- (app_nil_r (prompt_tail None)).
    apply str_in_before_fixed; [exact Hc | by_eval | by_eval |].
    rewrite app_nil_r. by_eval. }
  destruct story_so_far as [s|].
  - cbn [app]. rewrite <- !app_assoc.
    apply str_in_after_fixed; [by_eval | by_eval |].
    apply str_in_after_fixed; [by_eval | by_eval |].
    rewrite (app_assoc newline context_open).
    apply str_in_before_fixed; [apply Hs; reflexivity | by_eval | by_eval |].
    rewrite <- app_assoc.
    apply str_in_after_fixed; [by_eval | by_eval | exact Tail].
  - cbn [app]. apply str_in_after_fixed; [by_eval | by_eval | exact Tail].
Qed.

(** C6 as it is worded fails at the empty string: passed as previous-chapter
    context it is an empty context, and the clause is in the prompt. *)
Lemma continuity_clause_with_empty_context :
  context_nonempty (Some []) = false /\
  str_in continuity_clause
    (template (lit "A title") (lit "Some content") None (Some [])) = true.
Proof. split; [reflexivity | by_eval]. Qed.

(** C6 (amended). With the optional arguments omitted the prompt holds every
    mandatory heading verbatim, whatever the title and the content. The
    continuity clause is appended exactly when a previous-chapter context is
    passed, the empty string included: for a title, a content and a story
    so far that do not hold the clause themselves, the prompt holds it if
    and only if the previous-chapter context is not [None]. *)
Theorem template_headings_and_continuity (title content : str) :
  Forall (fun h => str_in h (template title content None None) = true)
    mandatory_headings /\
  forall story_so_far prev_chap_context,
    str_in continuity_clause title = false ->
    str_in continuity_clause content = false ->
    (forall s, story_so_far = Some s -> str_in continuity_clause s = false) ->
    (str_in continuity_clause
       (template title content story_so_far prev_chap_context) = true
     <-> prev_chap_context <> None).
Proof.
  split.
  - rewrite template_eq. cbn [app]. unfold mandatory_headings.
    repeat (apply Forall_cons; [find_block|]). apply Forall_nil.
  - intros story_so_far prev_chap_context Ht Hc Hs.
    destruct prev_chap_context as [p|].
    + split; [discriminate|]. intros _. rewrite template_eq.
      do 7 apply str_in_app_r. apply prompt_tail_clause.
    + rewrite (template_without_clause title content story_so_far Ht Hc Hs).
      split; [discriminate | congruence].
Qed.

Lemma template_headings_and_continuity_witness :
  str_in continuity_clause (lit "A title") = false /\
  str_in continuity_clause (lit "Some content") = false /\
  (forall s, Some (lit "The story") = Some s -> str_in continuity_clause s = false) /\
  (str_in continuity_clause
     (template (lit "A title") (lit "Some content") (Some (lit "The story")) (Some [])) = true
   <-> Some (@nil char) <> None).
Proof.
  assert (H1 : str_in continuity_clause (lit "A title") = false) by by_eval.
  assert (H2 : str_in continuity_clause (lit "Some content") = false) by by_eval.
  assert (H3 : forall s, Some (lit "The story") = Some s ->
                         str_in continuity_clause s = false).
  { intros s E. injection E as <-. by_eval. }
  split; [exact H1 | split; [exact H2 | split; [exact H3|]]].
  exact (proj2 (template_headings_and_continuity (lit "A title") (lit "Some content"))
           (Some (lit "The story")) (Some []) H1 H2 H3).
Defined.

(** * More on occurrences *)

Section Infix.

Lemma str_in_trans (a b c : str) :
  str_in a b = true -> str_in b c = true -> str_in a c = true.
Proof.
  intros H1 H2. apply str_in_iff in H1. apply str_in_iff in H2.
  destruct H1 as (x & y & ->). destruct H2 as (u & v & ->).
  apply str_in_iff. exists (u ++ x), (y ++ v). now rewrite <- !app_assoc.
Qed.

Lemma str_in_within (w b c : str) :
  str_in b c = true -> str_in w c = false -> str_in w b = false.
Proof.
  intros H1 H2. destruct (str_in w b) eqn:E; [|reflexivity].
  now rewrite (str_in_trans w b c E H1) in H2.
Qed.

Lemma str_in_prefix (x y : str) : str_in x (x ++ y) = true.
Proof. apply str_in_app_l, str_in_refl. Qed.

Lemma str_in_suffix (x y : str) : str_in y (x ++ y) = true.
Proof. apply str_in_app_r, str_in_refl. Qed.

Lemma firstn_infix (j : nat) (s : str) : str_in (firstn j s) s = true.
Proof. rewrite <- (firstn_skipn j s) at 2. apply str_in_prefix. Qed.

Lemma skipn_infix (j : nat) (s : str) : str_in (skipn j s) s = true.
Proof. rewrite <- (firstn_skipn j s) at 2. apply str_in_suffix. Qed.

Lemma upto_infix (s sep : str) : str_in (upto s sep) s = true.
Proof.
  unfold upto. destruct (find s sep); [apply firstn_infix | apply str_in_refl].
Qed.

Lemma after_infix (s sep : str) : str_in (after s sep) s = true.
Proof.
  unfold after. destruct (find s sep); [apply skipn_infix|].
  apply str_in_iff. exists [], s. reflexivity.
Qed.

(** *** [strip] keeps a middle part *)

Lemma lstrip_suffix (s : str) : exists l, s = l ++ lstrip s.
Proof.
  induction s as [|c s [l IH]]; [now exists []|]. simpl.
  destruct (isspace c).
  - exists (c :: l). simpl. now f_equal.
  - now exists [].
Qed.

Lemma rstrip_prefix (s : str) : exists r, s = rstrip s ++ r.
Proof.
  unfold rstrip. destruct (lstrip_suffix (rev s)) as [l E].
  exists (rev l). rewrite <- rev_app_distr, <- E. symmetry. apply rev_involutive.
Qed.

Lemma strip_infix (s : str) : str_in (strip s) s = true.
Proof.
  unfold strip. destruct (lstrip_suffix s) as [l E].
  destruct (rstrip_prefix (lstrip s)) as [r F].
  apply str_in_iff. exists l, r. now rewrite <- F.
Qed.

Lemma lstrip_head (s : str) (c : char) (u : str) :
  lstrip s = c :: u -> isspace c = false.
Proof.
  induction s as [|d s IH]; simpl; [discriminate|].
  destruct (isspace d) eqn:E; [exact IH|].
  intros H. injection H as <- _. exact E.
Qed.

Lemma rstrip_no_trailing_space (s : str) : ends_with_space (rstrip s) = false.
Proof.
  unfold ends_with_space, rstrip. rewrite rev_involutive.
  destruct (lstrip (rev s)) as [|c u] eqn:E; [reflexivity|].
  apply (lstrip_head _ _ _ E).
Qed.

Lemma strip_no_trailing_space (s : str) : ends_with_space (strip s) = false.
Proof. apply rstrip_no_trailing_space. Qed.

Lemma ends_with_space_app (x y : str) :
  y <> [] -> ends_with_space (x ++ y) = ends_with_space y.
Proof.
  intros H. unfold ends_with_space. rewrite rev_app_distr.
  destruct (rev y) as [|c u] eqn:E; [|reflexivity].
  apply (f_equal (@rev char)) in E. rewrite rev_involutive in E.
  now destruct H.
Qed.

Lemma lstrip_app_nonspace (a x : str) (c : char) :
  isspace c = false -> lstrip (a ++ c :: x) = lstrip a ++ c :: x.
Proof.
  intros H. induction a as [|d a IH]; simpl.
  - now rewrite H.
  - destruct (isspace d); [exact IH | reflexivity].
Qed.

Lemma rstrip_app_nonspace (x b : str) (c : char) :
  isspace c = false -> rstrip (x ++ c :: b) = x ++ c :: rstrip b.
Proof.
  intros H. unfold rstrip. rewrite rev_app_distr. cbn [rev].
  rewrite <- app_assoc. cbn [app].
  rewrite lstrip_app_nonspace by exact H.
  rewrite rev_app_distr. cbn [rev]. rewrite rev_involutive.
  now rewrite <- app_assoc.
Qed.

End Infix.

(** * Where [find] lands in a concatenation *)

Section FindShift.

Lemma skipn_app_lt (i : nat) (x y : str) :
  i <= length x -> skipn i (x ++ y) = skipn i x ++ y.
Proof.
  intros H. rewrite skipn_app. replace (i - length x) with 0 by lia.
  reflexivity.
Qed.

(** An occurrence inside [r] stays the first one when text is appended. *)
Lemma find_app_found (r y w : str) (j : nat) :
  find r w = Some j -> find (r ++ y) w = Some j.
Proof.
  intros F. pose proof (find_bound _ _ _ F) as B.
  destruct (find_some_inv _ _ _ F) as [F1 F2].
  apply find_some_intro.
  - rewrite skipn_app_lt by lia. apply startswith_iff in F1.
    destruct F1 as [t ->]. rewrite <- app_assoc. apply startswith_app.
  - intros i Hi. specialize (F2 i Hi).
    destruct (startswith (skipn i (r ++ y)) w) eqn:E; [|reflexivity].
    rewrite skipn_app_lt in E by lia.
    apply startswith_iff in E. destruct E as [t E].
    assert (L : length w <= length (skipn i r)).
    { rewrite length_skipn. lia. }
    apply app_eq_app in E. destruct E as [l [[E1 E2]|[E1 E2]]].
    + rewrite E1, startswith_app in F2. discriminate.
    + rewrite E1 in F2. destruct l as [|c l].
      * rewrite app_nil_r in E1. rewrite <- E1, app_nil_r in F2.
        rewrite <- (app_nil_r w) in F2 at 1. rewrite startswith_app in F2.
        discriminate.
      * apply (f_equal (@length char)) in E1. rewrite length_app in E1.
        simpl in E1. lia.
Qed.

(** With no occurrence beginning in [x], the search goes on after it. *)
Lemma find_skip (x y w : str) :
  (forall i, i < length x -> startswith (skipn i (x ++ y)) w = false) ->
  find (x ++ y) w = option_map (Nat.add (length x)) (find y w).
Proof.
  induction x as [|c x IH]; intros H.
  - simpl. now destruct (find y w).
  - pose proof (H 0 ltac:(simpl; lia)) as H0. cbn [skipn] in H0.
    cbn [app] in *. rewrite find_cons, H0.
    rewrite IH.
    + destruct (find y w); reflexivity.
    + intros i Hi. apply (H (S i)). simpl. lia.
Qed.

(** An occurrence that begins in [x] lies in [x] or runs over its end. *)
Lemma no_early_occurrence (x y w : str) :
  str_in w x = false -> overlap x w = false ->
  forall i, i < length x -> startswith (skipn i (x ++ y)) w = false.
Proof.
  intros Hx Ho i Hi.
  destruct (startswith (skipn i (x ++ y)) w) eqn:E; [|reflexivity].
  exfalso. rewrite skipn_app_lt in E by lia.
  apply startswith_iff in E. destruct E as [t E].
  apply app_eq_app in E. destruct E as [l [[E1 E2]|[E1 E2]]].
  - assert (S : str_in w x = true).
    { apply (str_in_trans w (skipn i x) x); [|apply skipn_infix].
      rewrite E1. apply str_in_prefix. }
    congruence.
  - eapply (overlap_false x w (skipn i x) (firstn i x) l).
    + exact Ho.
    + intros N. apply (f_equal (@length char)) in N.
      rewrite length_skipn in N. simpl in N. lia.
    + symmetry. apply firstn_skipn.
    + exact E1.
Qed.

Lemma find_after_block (x y w : str) :
  str_in w x = false -> overlap x w = false ->
  find (x ++ y) w = option_map (Nat.add (length x)) (find y w).
Proof.
  intros Hx Ho. apply find_skip. now apply no_early_occurrence.
Qed.

Lemma find_at_start (w y : str) : find (w ++ y) w = Some 0.
Proof.
  destruct w as [|c w]; [now destruct y|].
  cbn [app]. rewrite find_cons.
  change (c :: w ++ y) with ((c :: w) ++ y). now rewrite startswith_app.
Qed.

(** A text that cannot overlap itself is first found right after a text
    that does not hold it. *)
Lemma find_first_occurrence (w x y : str) :
  overlap (tl w) w = false -> str_in w x = false ->
  find (x ++ w ++ y) w = Some (length x).
Proof.
  intros Hb Hx.
  rewrite find_skip, find_at_start; [simpl; f_equal; lia|].
  intros i Hi.
  destruct (startswith (skipn i (x ++ w ++ y)) w) eqn:E; [|reflexivity].
  exfalso.
  destruct (Nat.lt_ge_cases (length x - i) (length w)) as [L|L].
  - pose proof (occurrences_disjoint w (x ++ w ++ y) i (length x - i) Hb E) as D.
    replace (i + (length x - i)) with (length x) in D by lia.
    rewrite skipn_length_app, startswith_app in D.
    assert (K : 0 < length x - i < length w) by lia.
    specialize (D K). discriminate.
  - rewrite skipn_app_lt in E by lia.
    apply startswith_iff in E. destruct E as [t E].
    apply app_eq_app in E. destruct E as [l [[E1 E2]|[E1 E2]]].
    + assert (S : str_in w x = true).
      { apply (str_in_trans w (skipn i x) x); [|apply skipn_infix].
        rewrite E1. apply str_in_prefix. }
      congruence.
    + destruct l as [|c l].
      * rewrite app_nil_r in E1.
        assert (S : str_in w x = true) by (rewrite E1; apply skipn_infix).
        congruence.
      * apply (f_equal (@length char)) in E1.
        rewrite length_app, length_skipn in E1. simpl in E1. lia.
Qed.

End FindShift.

(** * More on the parser *)

Section ParserMore.

(** Everything a returned response says about the reply. *)
Lemma parse_response_ok_inv (response : str) (r : ReadChapterResponse) :
  parse_response response = Ok r ->
  full_response r = response /\
  chapter_summary r = lit "## Chapter Summary" ++ summary_text response /\
  str_in SUMMARY_HEADING response = true /\
  ((str_in SKIPPED response = true /\ skipped_info_extraction r = true /\
    info_extraction r = None) \/
   (str_in SKIPPED response = false /\ skipped_info_extraction r = false /\
    str_in EXTRACTION_HEADING (pre_summary response) = true /\
    7 <= length (segments (extraction_region response)) /\
    info_extraction r =
      Some (extraction_of (segments (extraction_region response))))).
Proof.
  rewrite parse_response_eq. intros H.
  destruct (str_in SUMMARY_HEADING response); [|discriminate].
  destruct (str_in SKIPPED response).
  - injection H as <-. cbn. repeat split; try reflexivity. left. now repeat split.
  - destruct (str_in EXTRACTION_HEADING (pre_summary response)); [|discriminate].
    destruct (7 <=? length (segments (extraction_region response))) eqn:L;
      [|discriminate].
    injection H as <-. apply Nat.leb_le in L. cbn.
    repeat split; try reflexivity. right. now repeat split.
Qed.

Lemma summary_text_infix (response : str) :
  str_in (summary_text response) response = true.
Proof.
  unfold summary_text.
  apply (str_in_trans _ (after response SUMMARY_HEADING));
    [apply upto_infix | apply after_infix].
Qed.

(** The text between the first extraction heading and the next. *)
Lemma extraction_region_infix (response : str) :
  str_in (extraction_region response)
    (upto (after (pre_summary response) EXTRACTION_HEADING) EXTRACTION_HEADING)
  = true.
Proof. apply strip_infix. Qed.

Lemma extraction_region_in_pre_summary (response : str) :
  str_in (extraction_region response) (pre_summary response) = true.
Proof.
  apply (str_in_trans _ _ _ (extraction_region_infix response)).
  apply (str_in_trans _ (after (pre_summary response) EXTRACTION_HEADING));
    [apply upto_infix | apply after_infix].
Qed.

Lemma extraction_region_in_response (response : str) :
  str_in (extraction_region response) response = true.
Proof.
  apply (str_in_trans _ _ _ (extraction_region_in_pre_summary response)).
  apply upto_infix.
Qed.

Lemma marked_in_concat (l : list str) (i : nat) :
  i < length l ->
  str_in (MARKER ++ nth i l []) (concat (map (app MARKER) l)) = true.
Proof.
  revert i. induction l as [|s l IH]; intros i Hi.
  - simpl in Hi. lia.
  - cbn [map concat]. destruct i as [|i].
    + apply str_in_prefix.
    + apply str_in_app_r. apply IH. simpl in Hi. lia.
Qed.

(** A marked segment is part of the text it was cut from. *)
Lemma marked_segment_infix (text : str) (i : nat) :
  i < length (segments text) ->
  str_in (MARKER ++ nth i (segments text) []) text = true.
Proof.
  intros Hi. destruct (segments_spec text) as [D _].
  apply (str_in_trans _ _ _ (marked_in_concat _ _ Hi)).
  apply str_in_iff. exists (upto text MARKER), [].
  rewrite app_nil_r. exact D.
Qed.

Lemma fields_infix (text : str) :
  7 <= length (segments text) ->
  Forall (fun f => str_in f text = true) (fields (extraction_of (segments text))).
Proof.
  intros L. unfold fields, extraction_of.
  cbn [characters events locations organizations things concepts main_arc].
  repeat (apply Forall_cons; [apply marked_segment_infix; lia|]).
  apply Forall_nil.
Qed.

End ParserMore.

(** X1. [parse_response] returns normally exactly on the replies that hold
    the summary heading and either hold the sentinel or hold the extraction
    heading before the summary heading with at least seven marked segments
    after it; on every other reply it raises [IndexError]. *)
Theorem parse_response_succeeds_iff (response : str) :
  ((exists r, parse_response response = Ok r) <->
   str_in SUMMARY_HEADING response = true /\
   (str_in SKIPPED response = true \/
    (str_in EXTRACTION_HEADING (pre_summary response) = true /\
     7 <= length (segments (extraction_region response))))) /\
  ((exists r, parse_response response = Ok r) \/
   parse_response response = Raise IndexError).
Proof.
  rewrite parse_response_eq.
  destruct (str_in SUMMARY_HEADING response).
  2:{ split; [|now right]. split; [intros [r H]; discriminate|].
      intros [H _]. discriminate. }
  destruct (str_in SKIPPED response).
  { split; [|left; eauto]. split; [auto|]. eauto. }
  destruct (str_in EXTRACTION_HEADING (pre_summary response)).
  2:{ split; [|now right]. split; [intros [r H]; discriminate|].
      intros [_ [H|[H _]]]; discriminate. }
  destruct (Nat.leb_spec 7 (length (segments (extraction_region response))))
    as [L|L].
  - split; [|left; eauto]. split; [auto|]. eauto.
  - split; [|now right]. split; [intros [r H]; discriminate|].
    intros [_ [H|[_ H]]]; [discriminate | lia].
Qed.

Lemma parse_response_succeeds_iff_witness :
  (exists r, parse_response reply_short = Ok r) <->
  str_in SUMMARY_HEADING reply_short = true /\
  (str_in SKIPPED reply_short = true \/
   (str_in EXTRACTION_HEADING (pre_summary reply_short) = true /\
    7 <= length (segments (extraction_region reply_short)))).
Proof. exact (proj1 (parse_response_succeeds_iff reply_short)). Defined.

(** X2. A returned response holds the reply unchanged in [full_response];
    the summary after its rewritten heading and each of the seven category
    fields are verbatim parts of the reply. *)
Theorem parse_response_keeps_text (response : str) (r : ReadChapterResponse) :
  parse_response response = Ok r ->
  full_response r = response /\
  (exists t, chapter_summary r = lit "## Chapter Summary" ++ t /\
             str_in t response = true) /\
  (forall e, info_extraction r = Some e ->
             Forall (fun f => str_in f response = true) (fields e)).
Proof.
  intros H. apply parse_response_ok_inv in H.
  destruct H as (Hfull & Hsum & _ & Hinfo).
  split; [exact Hfull|]. split.
  - exists (summary_text response). split; [exact Hsum | apply summary_text_infix].
  - intros e He.
    destruct Hinfo as [(_ & _ & Hn)|(_ & _ & _ & L & Hs)]; [congruence|].
    rewrite Hs in He. injection He as <-.
    eapply Forall_impl; [|apply fields_infix, L].
    intros f Hf. cbv beta in Hf.
    apply (str_in_trans _ _ _ Hf), extraction_region_in_response.
Qed.

Lemma parse_response_keeps_text_witness :
  exists r, parse_response reply_full = Ok r /\
  full_response r = reply_full /\
  (exists t, chapter_summary r = lit "## Chapter Summary" ++ t /\
             str_in t reply_full = true) /\
  (forall e, info_extraction r = Some e ->
             Forall (fun f => str_in f reply_full = true) (fields e)).
Proof.
  assert (H : exists r, parse_response reply_full = Ok r)
    by (eexists; by_eval).
  destruct H as [r H]. exists r. split; [exact H|].
  exact (parse_response_keeps_text reply_full r H).
Defined.

(** X3. Every category field of a returned extraction is the marker [###]
    followed by a text that holds no further marker: a deeper heading such
    as [####] inside a section always ends that section. *)
Theorem fields_hold_one_marker (response : str) (r : ReadChapterResponse)
    (e : ReadChapterExtraction) :
  parse_response response = Ok r ->
  info_extraction r = Some e ->
  Forall (fun f => exists s, f = MARKER ++ s /\ str_in MARKER s = false)
    (fields e).
Proof.
  intros H He. apply parse_response_ok_inv in H.
  destruct H as (_ & _ & _ & [(_ & _ & Hn)|(_ & _ & _ & L & Hs)]);
    [congruence|].
  rewrite Hs in He. injection He as <-.
  destruct (segments_spec (extraction_region response)) as [_ F].
  assert (N : forall i, i < 7 ->
            str_in MARKER (nth i (segments (extraction_region response)) []) = false).
  { intros i Hi. apply (proj1 (Forall_nth _ _) F). lia. }
  unfold fields, extraction_of.
  cbn [characters events locations organizations things concepts main_arc].
  repeat (apply Forall_cons; [eexists; split; [reflexivity | apply N; lia]|]).
  apply Forall_nil.
Qed.

Lemma fields_hold_one_marker_witness :
  exists r e, parse_response reply_extra = Ok r /\
  info_extraction r = Some e /\
  Forall (fun f => exists s, f = MARKER ++ s /\ str_in MARKER s = false)
    (fields e).
Proof.
  assert (H : exists r e, parse_response reply_extra = Ok r /\
                          info_extraction r = Some e)
    by (do 2 eexists; split; by_eval).
  destruct H as (r & e & H & He). exists r, e.
  split; [exact H | split; [exact He|]].
  exact (fields_hold_one_marker reply_extra r e H He).
Defined.

(** X4. No category field of a returned extraction holds either of the two
    level-two headings the parser is keyed on. *)
Theorem fields_hold_no_heading (response : str) (r : ReadChapterResponse)
    (e : ReadChapterExtraction) :
  parse_response response = Ok r ->
  info_extraction r = Some e ->
  Forall (fun f => str_in SUMMARY_HEADING f = false /\
                   str_in EXTRACTION_HEADING f = false) (fields e).
Proof.
  intros H He. apply parse_response_ok_inv in H.
  destruct H as (_ & _ & _ & [(_ & _ & Hn)|(_ & _ & _ & L & Hs)]);
    [congruence|].
  rewrite Hs in He. injection He as <-.
  eapply Forall_impl; [|apply fields_infix, L].
  intros f Hf. cbv beta in Hf. split.
  - apply (str_in_within _ _ (pre_summary response)).
    + apply (str_in_trans _ _ _ Hf), extraction_region_in_pre_summary.
    + apply (upto_free SUMMARY_HEADING SUMMARY_HEADING_nonempty).
  - apply (str_in_within _ _ _ (str_in_trans _ _ _ Hf (extraction_region_infix response))).
    apply (upto_free EXTRACTION_HEADING EXTRACTION_HEADING_nonempty).
Qed.

Lemma fields_hold_no_heading_witness :
  exists r e, parse_response reply_full = Ok r /\
  info_extraction r = Some e /\
  Forall (fun f => str_in SUMMARY_HEADING f = false /\
                   str_in EXTRACTION_HEADING f = false) (fields e).
Proof.
  assert (H : exists r e, parse_response reply_full = Ok r /\
                          info_extraction r = Some e)
    by (do 2 eexists; split; by_eval).
  destruct H as (r & e & H & He). exists r, e.
  split; [exact H | split; [exact He|]].
  exact (fields_hold_no_heading reply_full r e H He).
Defined.

(** X5. The summary of a returned response never holds the heading
    [## General Chapter Summary] of the reply. *)
Theorem chapter_summary_without_heading (response : str) (r : ReadChapterResponse) :
  parse_response response = Ok r ->
  str_in SUMMARY_HEADING (chapter_summary r) = false.
Proof.
  intros H. apply parse_response_ok_inv in H. destruct H as (_ & -> & _).
  apply str_in_after_fixed; [by_eval | by_eval |].
  apply (upto_free SUMMARY_HEADING SUMMARY_HEADING_nonempty).
Qed.

Lemma chapter_summary_without_heading_witness :
  exists r, parse_response reply_two_summaries = Ok r /\
  str_in SUMMARY_HEADING (chapter_summary r) = false.
Proof.
  assert (H : exists r, parse_response reply_two_summaries = Ok r)
    by (eexists; by_eval).
  destruct H as [r H]. exists r. split; [exact H|].
  exact (chapter_summary_without_heading reply_two_summaries r H).
Defined.

(** X6. When the extraction region has exactly seven marked segments, the
    [main_arc] field does not end in whitespace: the region is stripped
    before it is cut, so the last field loses its trailing blank lines
    while the six before it keep theirs. *)
Theorem main_arc_right_stripped (response : str) (r : ReadChapterResponse)
    (e : ReadChapterExtraction) :
  parse_response response = Ok r ->
  info_extraction r = Some e ->
  length (segments (extraction_region response)) = 7 ->
  ends_with_space (main_arc e) = false.
Proof.
  intros H He L7. apply parse_response_ok_inv in H.
  destruct H as (_ & _ & _ & [(_ & _ & Hn)|(_ & _ & _ & _ & Hs)]);
    [congruence|].
  rewrite Hs in He. injection He as <-.
  destruct (segments_spec (extraction_region response)) as [D _].
  pose proof (strip_no_trailing_space
    (upto (after (pre_summary response) EXTRACTION_HEADING) EXTRACTION_HEADING)) as T.
  fold (extraction_region response) in T.
  destruct (segments (extraction_region response))
    as [|s1 [|s2 [|s3 [|s4 [|s5 [|s6 [|s7 [|s8 rest]]]]]]]];
    simpl in L7; try lia.
  cbn [map concat] in D. rewrite app_nil_r in D.
  rewrite D, !app_assoc in T.
  rewrite <- (app_assoc _ MARKER s7) in T.
  rewrite ends_with_space_app in T by discriminate.
  exact T.
Qed.

Lemma main_arc_right_stripped_witness :
  exists r e, parse_response reply_full = Ok r /\
  info_extraction r = Some e /\
  length (segments (extraction_region reply_full)) = 7 /\
  ends_with_space (main_arc e) = false.
Proof.
  assert (H : exists r e, parse_response reply_full = Ok r /\
                          info_extraction r = Some e)
    by (do 2 eexists; split; by_eval).
  assert (L : length (segments (extraction_region reply_full)) = 7) by by_eval.
  destruct H as (r & e & H & He). exists r, e.
  split; [exact H | split; [exact He | split; [exact L|]]].
  exact (main_arc_right_stripped reply_full r e H He L).
Defined.

(** * Replies in the layout the instructions ask for *)

Section LaidOut.

Lemma upto_first (x w y : str) :
  find (x ++ w ++ y) w = Some (length x) -> upto (x ++ w ++ y) w = x.
Proof. intros F. unfold upto. rewrite F. apply firstn_length_app. Qed.

Lemma after_first (x w y : str) :
  find (x ++ w ++ y) w = Some (length x) -> after (x ++ w ++ y) w = y.
Proof.
  intros F. unfold after. rewrite F.
  rewrite Nat.add_comm, <- skipn_skipn, skipn_length_app.
  apply skipn_length_app.
Qed.

Lemma upto_absent (s w : str) : str_in w s = false -> upto s w = s.
Proof. intros H. apply str_in_find_none in H. unfold upto. now rewrite H. Qed.

Lemma MARKER_cons : MARKER = (0x23 :: [0x23; 0x23])%N.
Proof. reflexivity. Qed.

Lemma hash_not_space : isspace 0x23%N = false.
Proof. reflexivity. Qed.

Lemma hashfree_app (x y : str) :
  hashfree (x ++ y) = hashfree x && hashfree y.
Proof. apply forallb_app. Qed.

Lemma hashfree_lstrip (s : str) : hashfree s = true -> hashfree (lstrip s) = true.
Proof.
  intros H. destruct (lstrip_suffix s) as [l E]. rewrite E, hashfree_app in H.
  now apply andb_true_iff in H.
Qed.

Lemma hashfree_rstrip (s : str) : hashfree s = true -> hashfree (rstrip s) = true.
Proof.
  intros H. destruct (rstrip_prefix s) as [l E]. rewrite E, hashfree_app in H.
  now apply andb_true_iff in H.
Qed.

(** No text that begins with [#] can begin inside a text without [#]. *)
Lemma hashfree_no_early (p y w : str) :
  hashfree p = true ->
  forall i, i < length p -> startswith (skipn i (p ++ y)) (0x23%N :: w) = false.
Proof.
  induction p as [|c p IH]; intros H i Hi; [simpl in Hi; lia|].
  cbn [hashfree forallb] in H. apply andb_true_iff in H. destruct H as [Hc Hp].
  destruct i as [|i].
  - cbn [skipn app startswith]. apply negb_true_iff in Hc. now rewrite Hc.
  - cbn [skipn app]. apply IH; [exact Hp | simpl in Hi; lia].
Qed.

Lemma find_marker_hashfree (p y : str) :
  hashfree p = true -> find (p ++ MARKER ++ y) MARKER = Some (length p).
Proof.
  intros H. rewrite find_skip, find_at_start; [simpl; f_equal; lia|].
  exact (hashfree_no_early p (MARKER ++ y) [0x23; 0x23]%N H).
Qed.

Lemma marker_absent_hashfree (p : str) :
  hashfree p = true -> str_in MARKER p = false.
Proof.
  intros H. apply str_in_find_none. rewrite <- (app_nil_r p).
  rewrite find_skip; [reflexivity|].
  exact (hashfree_no_early p [] [0x23; 0x23]%N H).
Qed.

(** Cutting at the markers gives back the pieces they were put between. *)
Lemma split_marked (p : str) (ps : list str) :
  Forall (fun t => hashfree t = true) (p :: ps) ->
  split (p ++ concat (map (app MARKER) ps)) MARKER = p :: ps.
Proof.
  revert p. induction ps as [|q ps IH]; intros p H.
  - cbn [map concat]. rewrite app_nil_r.
    apply (split_absent MARKER MARKER_nonempty), marker_absent_hashfree.
    now inversion H.
  - inversion H as [|? ? Hp Hq]; subst.
    cbn [map concat]. rewrite <- app_assoc.
    rewrite (split_found MARKER MARKER_nonempty _ (length p))
      by (apply find_marker_hashfree, Hp).
    rewrite firstn_length_app.
    rewrite Nat.add_comm, <- skipn_skipn, skipn_length_app, skipn_length_app.
    f_equal. apply IH, Hq.
Qed.

Lemma lstrip_before_marker (a x : str) :
  lstrip (a ++ MARKER ++ x) = lstrip a ++ MARKER ++ x.
Proof.
  rewrite MARKER_cons. cbn [app]. apply lstrip_app_nonspace, hash_not_space.
Qed.

Lemma rstrip_after_marker (x b : str) :
  rstrip (x ++ MARKER ++ b) = x ++ MARKER ++ rstrip b.
Proof.
  rewrite MARKER_cons.
  change (x ++ (0x23 :: [0x23; 0x23])%N ++ b)
    with (x ++ [0x23; 0x23]%N ++ 0x23%N :: b).
  rewrite app_assoc, rstrip_app_nonspace by apply hash_not_space.
  now rewrite <- app_assoc.
Qed.

Lemma strip_laid_out_body (intro s1 s2 s3 s4 s5 s6 s7 : str) :
  strip (laid_out_body intro s1 s2 s3 s4 s5 s6 s7) =
  lstrip intro ++
  concat (map (app MARKER) [s1; s2; s3; s4; s5; s6; rstrip s7]).
Proof.
  unfold strip, laid_out_body. rewrite lstrip_before_marker.
  cbn [map concat]. rewrite app_nil_r, !app_assoc.
  rewrite <- (app_assoc _ MARKER s7), rstrip_after_marker.
  now rewrite !app_assoc.
Qed.

End LaidOut.

(** X7. A reply laid out as the instructions ask parses into the fields it
    was written for. Take any text, then the extraction heading, an
    introduction, seven marked sections, the summary heading and a summary;
    let the sentinel be absent, let the two headings occur nowhere before
    their place, and let the introduction and the sections be free of [#].
    In particular the introduction and the marked sections together must
    not hold the extraction heading: a section titled
    [### Information Extraction] holds it, and such a reply raises
    [IndexError] instead. Then [parse_response] returns the seven sections behind their markers,
    the seventh right-stripped, and the summary up to a repeated heading. *)
Theorem parse_laid_out_reply (pre intro s1 s2 s3 s4 s5 s6 s7 summary : str) :
  str_in SKIPPED (laid_out_reply pre intro s1 s2 s3 s4 s5 s6 s7 summary) = false ->
  str_in EXTRACTION_HEADING pre = false ->
  str_in EXTRACTION_HEADING (laid_out_body intro s1 s2 s3 s4 s5 s6 s7) = false ->
  str_in SUMMARY_HEADING
    (pre ++ EXTRACTION_HEADING ++ laid_out_body intro s1 s2 s3 s4 s5 s6 s7) = false ->
  Forall (fun t => hashfree t = true) [intro; s1; s2; s3; s4; s5; s6; s7] ->
  parse_response (laid_out_reply pre intro s1 s2 s3 s4 s5 s6 s7 summary) =
    Ok {| full_response := laid_out_reply pre intro s1 s2 s3 s4 s5 s6 s7 summary;
          skipped_info_extraction := false;
          info_extraction :=
            Some {| characters := MARKER ++ s1;
                    events := MARKER ++ s2;
                    locations := MARKER ++ s3;
                    organizations := MARKER ++ s4;
                    things := MARKER ++ s5;
                    concepts := MARKER ++ s6;
                    main_arc := MARKER ++ rstrip s7 |};
          chapter_summary :=
            lit "## Chapter Summary" ++ upto summary SUMMARY_HEADING |}.
Proof.
  intros Hskip Hpre Hbody Hsum Hfree.
  set (body := laid_out_body intro s1 s2 s3 s4 s5 s6 s7) in *.
  set (reply := laid_out_reply pre intro s1 s2 s3 s4 s5 s6 s7 summary) in *.
  assert (R : reply = (pre ++ EXTRACTION_HEADING ++ body) ++ SUMMARY_HEADING ++ summary).
  { unfold reply, laid_out_reply. fold body. now rewrite <- !app_assoc. }
  assert (F1 : find reply SUMMARY_HEADING
               = Some (length (pre ++ EXTRACTION_HEADING ++ body))).
  { rewrite R. apply find_first_occurrence; [by_eval | exact Hsum]. }
  assert (P : pre_summary reply = pre ++ EXTRACTION_HEADING ++ body).
  { unfold pre_summary. rewrite R in *. now apply upto_first. }
  assert (S : summary_text reply = upto summary SUMMARY_HEADING).
  { unfold summary_text. rewrite R in *. now rewrite after_first. }
  assert (F2 : find (pre ++ EXTRACTION_HEADING ++ body) EXTRACTION_HEADING
               = Some (length pre)).
  { apply find_first_occurrence; [by_eval | exact Hpre]. }
  assert (G : extraction_region reply = strip body).
  { unfold extraction_region. rewrite P, (after_first _ _ _ F2).
    now rewrite upto_absent. }
  assert (Hfree' : Forall (fun t => hashfree t = true)
                     [lstrip intro; s1; s2; s3; s4; s5; s6; rstrip s7]).
  { repeat match goal with
           | H : Forall _ (_ :: _) |- _ => inversion H; clear H; subst
           end.
    repeat (apply Forall_cons;
            [first [assumption | now apply hashfree_lstrip
                   | now apply hashfree_rstrip]|]).
    apply Forall_nil. }
  assert (Sg : segments (extraction_region reply)
               = [s1; s2; s3; s4; s5; s6; rstrip s7]).
  { unfold segments. rewrite G. unfold body. rewrite strip_laid_out_body.
    now rewrite (split_marked _ _ Hfree'). }
  rewrite parse_response_eq.
  rewrite (proj2 (str_in_find _ _) (ex_intro _ _ F1)), Hskip, P.
  rewrite (proj2 (str_in_find _ _) (ex_intro _ _ F2)), Sg, S.
  reflexivity.
Qed.

Lemma parse_laid_out_reply_witness :
  str_in SKIPPED
    (laid_out_reply sample_pre sample_intro sample_entities sample_chronology
       sample_locations sample_organizations sample_things sample_concepts
       sample_story_arc sample_summary) = false /\
  str_in EXTRACTION_HEADING sample_pre = false /\
  str_in EXTRACTION_HEADING
    (laid_out_body sample_intro sample_entities sample_chronology
       sample_locations sample_organizations sample_things sample_concepts
       sample_story_arc) = false /\
  str_in SUMMARY_HEADING
    (sample_pre ++ EXTRACTION_HEADING ++
     laid_out_body sample_intro sample_entities sample_chronology
       sample_locations sample_organizations sample_things sample_concepts
       sample_story_arc) = false /\
  Forall (fun t => hashfree t = true)
    [sample_intro; sample_entities; sample_chronology; sample_locations;
     sample_organizations; sample_things; sample_concepts; sample_story_arc] /\
  parse_response
    (laid_out_reply sample_pre sample_intro sample_entities sample_chronology
       sample_locations sample_organizations sample_things sample_concepts
       sample_story_arc sample_summary) =
    Ok {| full_response :=
            laid_out_reply sample_pre sample_intro sample_entities
              sample_chronology sample_locations sample_organizations
              sample_things sample_concepts sample_story_arc sample_summary;
          skipped_info_extraction := false;
          info_extraction :=
            Some {| characters := MARKER ++ sample_entities;
                    events := MARKER ++ sample_chronology;
                    locations := MARKER ++ sample_locations;
                    organizations := MARKER ++ sample_organizations;
                    things := MARKER ++ sample_things;
                    concepts := MARKER ++ sample_concepts;
                    main_arc := MARKER ++ rstrip sample_story_arc |};
          chapter_summary :=
            lit "## Chapter Summary" ++ upto sample_summary SUMMARY_HEADING |}.
Proof.
  assert (H1 : str_in SKIPPED
    (laid_out_reply sample_pre sample_intro sample_entities sample_chronology
       sample_locations sample_organizations sample_things sample_concepts
       sample_story_arc sample_summary) = false) by by_eval.
  assert (H2 : str_in EXTRACTION_HEADING sample_pre = false) by by_eval.
  assert (H3 : str_in EXTRACTION_HEADING
    (laid_out_body sample_intro sample_entities sample_chronology
       sample_locations sample_organizations sample_things sample_concepts
       sample_story_arc) = false) by by_eval.
  assert (H4 : str_in SUMMARY_HEADING
    (sample_pre ++ EXTRACTION_HEADING ++
     laid_out_body sample_intro sample_entities sample_chronology
       sample_locations sample_organizations sample_things sample_concepts
       sample_story_arc) = false) by by_eval.
  assert (H5 : Forall (fun t => hashfree t = true)
    [sample_intro; sample_entities; sample_chronology; sample_locations;
     sample_organizations; sample_things; sample_concepts; sample_story_arc]).
  { repeat (apply Forall_cons; [by_eval|]). apply Forall_nil. }
  split; [exact H1 | split; [exact H2 | split; [exact H3 |
    split; [exact H4 | split; [exact H5|]]]]].
  exact (parse_laid_out_reply sample_pre sample_intro sample_entities
           sample_chronology sample_locations sample_organizations
           sample_things sample_concepts sample_story_arc sample_summary
           H1 H2 H3 H4 H5).
Defined.

Section Appended.

Lemma upto_app_found (s y w : str) :
  str_in w s = true -> upto (s ++ y) w = upto s w.
Proof.
  intros H. apply str_in_find in H. destruct H as [j F].
  pose proof (find_bound _ _ _ F) as B.
  unfold upto. rewrite F, (find_app_found _ y _ _ F).
  rewrite firstn_app. replace (j - length s) with 0 by lia.
  cbn [firstn]. apply app_nil_r.
Qed.

Lemma after_app_found (s y w : str) :
  str_in w s = true -> after (s ++ y) w = after s w ++ y.
Proof.
  intros H. apply str_in_find in H. destruct H as [j F].
  pose proof (find_bound _ _ _ F) as B.
  unfold after. rewrite F, (find_app_found _ y _ _ F).
  apply skipn_app_lt. lia.
Qed.

(** The summary of a reply does not change when a summary heading and more
    text are appended. *)
Lemma summary_text_appended (response tail : str) :
  str_in SUMMARY_HEADING response = true ->
  summary_text (response ++ SUMMARY_HEADING ++ tail) = summary_text response.
Proof.
  intros H. unfold summary_text. rewrite after_app_found by exact H.
  destruct (str_in SUMMARY_HEADING (after response SUMMARY_HEADING)) eqn:E.
  - now apply upto_app_found.
  - rewrite (upto_absent _ _ E). apply upto_first.
    apply find_first_occurrence; [by_eval | exact E].
Qed.

End Appended.

(** X8. What follows a second summary heading is ignored. If a reply holds
    the summary heading, appending the heading again and any text changes
    the result in [full_response] only, as long as the appended text does
    not bring in the sentinel. *)
Theorem text_after_repeated_heading_ignored (response tail : str) :
  str_in SUMMARY_HEADING response = true ->
  str_in SKIPPED (response ++ SUMMARY_HEADING ++ tail) = str_in SKIPPED response ->
  parse_response (response ++ SUMMARY_HEADING ++ tail) =
    match parse_response response with
    | Ok r => Ok {| full_response := response ++ SUMMARY_HEADING ++ tail;
                    skipped_info_extraction := skipped_info_extraction r;
                    info_extraction := info_extraction r;
                    chapter_summary := chapter_summary r |}
    | Raise e => Raise e
    end.
Proof.
  intros Hsum Hskip.
  assert (P : pre_summary (response ++ SUMMARY_HEADING ++ tail)
              = pre_summary response)
    by (apply upto_app_found, Hsum).
  assert (G : extraction_region (response ++ SUMMARY_HEADING ++ tail)
              = extraction_region response)
    by (unfold extraction_region; now rewrite P).
  rewrite !parse_response_eq.
  rewrite (str_in_app_l _ _ _ Hsum), Hsum, Hskip, P, G.
  rewrite (summary_text_appended _ _ Hsum).
  destruct (str_in SKIPPED response); [reflexivity|].
  destruct (str_in EXTRACTION_HEADING (pre_summary response)); [|reflexivity].
  destruct (7 <=? length (segments (extraction_region response)));
    reflexivity.
Qed.

Lemma text_after_repeated_heading_ignored_witness :
  str_in SUMMARY_HEADING reply_full = true /\
  str_in SKIPPED (reply_full ++ SUMMARY_HEADING ++ lit " again") =
    str_in SKIPPED reply_full /\
  parse_response (reply_full ++ SUMMARY_HEADING ++ lit " again") =
    match parse_response reply_full with
    | Ok r => Ok {| full_response := reply_full ++ SUMMARY_HEADING ++ lit " again";
                    skipped_info_extraction := skipped_info_extraction r;
                    info_extraction := info_extraction r;
                    chapter_summary := chapter_summary r |}
    | Raise e => Raise e
    end.
Proof.
  assert (H1 : str_in SUMMARY_HEADING reply_full = true) by by_eval.
  assert (H2 : str_in SKIPPED (reply_full ++ SUMMARY_HEADING ++ lit " again") =
               str_in SKIPPED reply_full) by by_eval.
  split; [exact H1 | split; [exact H2|]].
  exact (text_after_repeated_heading_ignored reply_full (lit " again") H1 H2).
Defined.

(** X9. The prompt itself, given to the parser, is read as a skipped
    chapter, whatever the four arguments: its instructions quote the
    sentinel and carry the summary heading. *)
Theorem echoed_prompt_is_skipped (title content : str)
    (story_so_far prev_chap_context : option str) :
  exists r,
    parse_response (template title content story_so_far prev_chap_context) = Ok r /\
    skipped_info_extraction r = true /\
    info_extraction r = None.
Proof.
  assert (T : forall w, str_in w (prompt_tail prev_chap_context) = true ->
              str_in w (template title content story_so_far prev_chap_context) = true).
  { intros w H. rewrite template_eq. do 7 apply str_in_app_r. exact H. }
  rewrite parse_response_eq.
  rewrite (T SUMMARY_HEADING) by (destruct prev_chap_context; by_eval).
  rewrite (T SKIPPED) by (destruct prev_chap_context; by_eval).
  eexists. split; [reflexivity|]. split; reflexivity.
Qed.

(** * More on the prompt *)

(** Shows a text absent from a chain of fixed blocks and caller's texts:
    block by block, with the side conditions on fixed blocks evaluated. *)
Ltac absent_chain :=
  repeat first
    [ apply str_in_after_fixed; [by_eval | by_eval |]
    | apply str_in_before_fixed; [assumption | by_eval | by_eval |] ];
  try by_eval.

(** Brings a prompt into a flat chain of blocks. *)
Ltac flat_prompt :=
  rewrite template_eq; cbn [app]; rewrite <- ?app_assoc.

(** X10. Whatever the four arguments, the prompt holds every mandatory
    heading verbatim. *)
Theorem template_headings_always (title content : str)
    (story_so_far prev_chap_context : option str) :
  Forall
    (fun h => str_in h (template title content story_so_far prev_chap_context) = true)
    mandatory_headings.
Proof.
  rewrite template_eq. unfold mandatory_headings.
  destruct story_so_far, prev_chap_context;
    repeat (apply Forall_cons; [find_block|]); apply Forall_nil.
Qed.

(** X11. The caller's texts are in the prompt verbatim: the title, the
    content, and the story so far and the previous-chapter context when
    they are passed. *)
Theorem template_holds_arguments (title content : str)
    (story_so_far prev_chap_context : option str) :
  str_in title (template title content story_so_far prev_chap_context) = true /\
  str_in content (template title content story_so_far prev_chap_context) = true /\
  (forall s, story_so_far = Some s ->
     str_in s (template title content story_so_far prev_chap_context) = true) /\
  (forall p, prev_chap_context = Some p ->
     str_in p (template title content story_so_far prev_chap_context) = true).
Proof.
  rewrite template_eq. repeat split.
  - do 4 apply str_in_app_r. apply str_in_prefix.
  - do 6 apply str_in_app_r. apply str_in_prefix.
  - intros s ->. apply str_in_app_r, str_in_app_l, str_in_app_r, str_in_prefix.
  - intros p ->. do 2 apply str_in_app_r.
    apply str_in_app_l, str_in_app_r, str_in_prefix.
Qed.

Lemma template_holds_arguments_witness :
  (forall s, Some (lit "The story") = Some s ->
     str_in s (template (lit "A title") (lit "Some content")
                 (Some (lit "The story")) (Some [])) = true) /\
  (forall p, Some (@nil char) = Some p ->
     str_in p (template (lit "A title") (lit "Some content")
                 (Some (lit "The story")) (Some [])) = true).
Proof.
  exact (proj2 (proj2 (template_holds_arguments (lit "A title")
                         (lit "Some content") (Some (lit "The story")) (Some [])))).
Defined.

(** X12. The block [# Story So Far:] is in the prompt exactly when a story
    so far is passed, for a title, a content and a previous-chapter context
    that do not hold that heading themselves. *)
Theorem story_block_iff_passed (title content : str)
    (story_so_far prev_chap_context : option str) :
  str_in STORY_HEADING title = false ->
  str_in STORY_HEADING content = false ->
  (forall p, prev_chap_context = Some p -> str_in STORY_HEADING p = false) ->
  (str_in STORY_HEADING
     (template title content story_so_far prev_chap_context) = true
   <-> story_so_far <> None).
Proof.
  intros Ht Hc Hp. destruct story_so_far as [s|].
  - split; [discriminate|]. intros _. rewrite template_eq.
    apply str_in_app_r, str_in_app_l, str_in_app_l. by_eval.
  - assert (A : str_in STORY_HEADING
                  (template title content None prev_chap_context) = false).
    { destruct prev_chap_context as [p|].
      - specialize (Hp p eq_refl). flat_prompt. absent_chain.
      - flat_prompt. absent_chain. }
    rewrite A. split; [discriminate | congruence].
Qed.

Lemma story_block_iff_passed_witness :
  str_in STORY_HEADING (lit "A title") = false /\
  str_in STORY_HEADING (lit "Some content") = false /\
  (forall p, Some (lit "Earlier") = Some p -> str_in STORY_HEADING p = false) /\
  (str_in STORY_HEADING
     (template (lit "A title") (lit "Some content") None (Some (lit "Earlier"))) = true
   <-> @None str <> None).
Proof.
  assert (H1 : str_in STORY_HEADING (lit "A title") = false) by by_eval.
  assert (H2 : str_in STORY_HEADING (lit "Some content") = false) by by_eval.
  assert (H3 : forall p, Some (lit "Earlier") = Some p ->
                         str_in STORY_HEADING p = false).
  { intros p E. injection E as <-. by_eval. }
  split; [exact H1 | split; [exact H2 | split; [exact H3|]]].
  exact (story_block_iff_passed (lit "A title") (lit "Some content")
           None (Some (lit "Earlier")) H1 H2 H3).
Defined.

(** X13. The block [# Previous Chapter(s) Context:] is in the prompt exactly
    when a previous-chapter context is passed, for a title, a content and a
    story so far that do not hold that heading themselves. *)
Theorem previous_block_iff_passed (title content : str)
    (story_so_far prev_chap_context : option str) :
  str_in PREVIOUS_HEADING title = false ->
  str_in PREVIOUS_HEADING content = false ->
  (forall s, story_so_far = Some s -> str_in PREVIOUS_HEADING s = false) ->
  (str_in PREVIOUS_HEADING
     (template title content story_so_far prev_chap_context) = true
   <-> prev_chap_context <> None).
Proof.
  intros Ht Hc Hs. destruct prev_chap_context as [p|].
  - split; [discriminate|]. intros _. rewrite template_eq.
    do 2 apply str_in_app_r. apply str_in_app_l, str_in_app_l. by_eval.
  - assert (A : str_in PREVIOUS_HEADING
                  (template title content story_so_far None) = false).
    { destruct story_so_far as [s|].
      - specialize (Hs s eq_refl). flat_prompt. absent_chain.
      - flat_prompt. absent_chain. }
    rewrite A. split; [discriminate | congruence].
Qed.

Lemma previous_block_iff_passed_witness :
  str_in PREVIOUS_HEADING (lit "A title") = false /\
  str_in PREVIOUS_HEADING (lit "Some content") = false /\
  (forall s, Some (lit "The story") = Some s -> str_in PREVIOUS_HEADING s = false) /\
  (str_in PREVIOUS_HEADING
     (template (lit "A title") (lit "Some content") (Some (lit "The story")) None) = true
   <-> @None str <> None).
Proof.
  assert (H1 : str_in PREVIOUS_HEADING (lit "A title") = false) by by_eval.
  assert (H2 : str_in PREVIOUS_HEADING (lit "Some content") = false) by by_eval.
  assert (H3 : forall s, Some (lit "The story") = Some s ->
                         str_in PREVIOUS_HEADING s = false).
  { intros s E. injection E as <-. by_eval. }
  split; [exact H1 | split; [exact H2 | split; [exact H3|]]].
  exact (previous_block_iff_passed (lit "A title") (lit "Some content")
           (Some (lit "The story")) None H1 H2 H3).
Defined.

(** X14. With both optional arguments omitted, the first
    [# Chapter Context:] of the prompt comes right after the task text,
    which does not end in a line break: the heading does not start a line.
    When a story so far or a previous-chapter context is passed, the
    heading does start a line. *)
Theorem context_heading_after_task (title content : str) :
  (find (template title content None None) CONTEXT_HEADING
     = Some (length prompt_head) /\
   ends_with_space prompt_head = false) /\
  (forall story_so_far prev_chap_context,
     story_so_far <> None \/ prev_chap_context <> None ->
     str_in CONTEXT_HEADING_LINE
       (template title content story_so_far prev_chap_context) = true).
Proof.
  split.
  - split; [|by_eval]. flat_prompt.
    rewrite find_after_block by by_eval.
    change context_open with (CONTEXT_HEADING ++ lit "
## Chapter Title: ").
    rewrite <- app_assoc, find_at_start. cbn [option_map].
    now rewrite Nat.add_0_r.
  - intros story_so_far prev_chap_context H.
    destruct story_so_far as [s|], prev_chap_context as [p|];
      flat_prompt; rewrite ?(app_assoc newline context_open).
    + do 6 apply str_in_app_r. apply str_in_app_l. by_eval.
    + do 3 apply str_in_app_r. apply str_in_app_l. by_eval.
    + do 3 apply str_in_app_r. apply str_in_app_l. by_eval.
    + destruct H as [H|H]; now destruct H.
Qed.

Lemma context_heading_after_task_witness :
  (Some (lit "The story") <> None \/ @None str <> None) /\
  str_in CONTEXT_HEADING_LINE
    (template (lit "A title") (lit "Some content") (Some (lit "The story")) None)
  = true.
Proof.
  assert (H : Some (lit "The story") <> None \/ @None str <> None)
    by (left; discriminate).
  split; [exact H|].
  exact (proj2 (context_heading_after_task (lit "A title") (lit "Some content"))
           (Some (lit "The story")) None H).
Defined.

(** The mock prompt names its four placeholders. *)
Example mock_template_placeholders :
  Forall (fun t => str_in t mock_template = true)
    [ lit "{{title}}"; lit "{{content}}"; lit "<OPT>{{story_so_far}}</OPT>";
      lit "<OPT>{{prev_chap_context}}</OPT>" ].
Proof. repeat (apply Forall_cons; [by_eval|]). apply Forall_nil. Qed.
